(** * rbfopt_refinement: trust-region local search of RBFOpt

    A shallow embedding of [src/rbfopt_refinement.py] and the properties
    of its five routines: [init_trust_region], [get_linear_model],
    [get_candidate_point], [get_integer_candidate] and
    [update_trust_region_radius].

    Number model.  A finite float is idealised as a real number of
    [R]: rounding and overflow are not represented.  The two places
    where the code can leave the finite numbers are kept explicit: a
    Python float division by zero raises, and a numpy division by zero
    yields [inf], [-inf] or [nan], with the sign the sign of the zero
    divisor gives it. *)

From Stdlib Require Import String.
From Stdlib Require Import Reals Lra Lia List ZArith Bool.
From Stdlib Require Import Sorting.Sorted Sorting.Permutation.
Import ListNotations.

Open Scope R_scope.

(** ** Outcomes of a call *)

(** The exceptions the module can let escape. *)
Inductive exn : Type :=
| AssertionError
| ZeroDivisionError
| IndexError
| ValueError
| NameError
| LinAlgError.

(** A call returns a value, raises, or returns numpy values that are
    not finite ([inf] / [nan]) and so have no image in [R]. *)
Inductive outcome (A : Type) : Type :=
| Ok (a : A)
| Raise (e : exn)
| NotFinite.

Arguments Ok {A} a.
Arguments Raise {A} e.
Arguments NotFinite {A}.

Definition bind {A B : Type} (m : outcome A) (f : A -> outcome B) : outcome B :=
  match m with
  | Ok a => f a
  | Raise e => Raise e
  | NotFinite => NotFinite
  end.

Notation "x <- m ;; k" := (bind m (fun x => k))
  (at level 61, m at next level, right associativity).

(** [assert(c)] *)
Definition assert (c : bool) : outcome unit :=
  if c then Ok tt else Raise AssertionError.

Definition raises {A : Type} (m : outcome A) : Prop :=
  exists e, m = Raise e.

(** ** Comparisons on the reals, as booleans *)

Definition Rltb (x y : R) : bool := if Rlt_dec x y then true else false.
Definition Rleb (x y : R) : bool := if Rle_dec x y then true else false.
Definition Rgeb (x y : R) : bool := Rleb y x.
Definition Rgtb (x y : R) : bool := Rltb y x.

(** Python's builtin [min(a, b)] and [max(a, b)]: the first argument
    is kept unless the second is strictly better. *)
Definition py_min (a b : R) : R := if Rlt_dec b a then b else a.
Definition py_max (a b : R) : R := if Rlt_dec a b then b else a.

(** ** Settings *)

(** The fields of [RbfoptSettings] the module reads.  The class itself
    is not part of the sources, so the values are parameters. *)
Record RbfoptSettings : Type := {
  min_tr_radius : R;
  min_dist : R;
  tr_acceptable_decrease_shrink : R;
  tr_acceptable_decrease_enlarge : R;
  tr_acceptable_decrease_move : R
}.

(** A settings value used for concrete runs. *)
Definition sample_settings : RbfoptSettings := {|
  min_tr_radius := 1 / 1000;
  min_dist := 1 / 100000;
  tr_acceptable_decrease_shrink := 1 / 5;
  tr_acceptable_decrease_enlarge := 3 / 5;
  tr_acceptable_decrease_move := 1 / 10
|}.

(** ** Vectors: one-dimensional numpy arrays of floats *)

Definition vec : Type := list R.

Definition map2 {A B C : Type} (f : A -> B -> C) (u : list A) (v : list B)
  : list C :=
  map (fun p => f (fst p) (snd p)) (combine u v).

Definition vsub (u v : vec) : vec := map2 Rminus u v.
Definition vdiv (u v : vec) : vec := map2 Rdiv u v.
Definition vadd_scalar (u : vec) (c : R) : vec := map (fun x => x + c) u.
Definition vsub_scalar (u : vec) (c : R) : vec := map (fun x => x - c) u.
Definition vscale (c : R) (u : vec) : vec := map (fun x => c * x) u.

(** [np.dot(u, v)] *)
Definition dot (u v : vec) : R := fold_right Rplus 0 (map2 Rmult u v).

(** [np.sqrt(np.dot(h, h))] *)
Definition norm (h : vec) : R := sqrt (dot h h).

(** [u[mask]]: the entries of [u] where the boolean mask holds. *)
Fixpoint select {A : Type} (mask : list bool) (u : list A) : list A :=
  match mask, u with
  | b :: mask', x :: u' => if b then x :: select mask' u' else select mask' u'
  | _, _ => []
  end.

(** [np.any(mask)] *)
Definition any (mask : list bool) : bool := existsb (fun b => b) mask.

(** [np.min(u)] of a non-empty array; the mask test guards the call. *)
Definition np_min (u : vec) : R :=
  match u with
  | [] => 0
  | x :: u' => fold_left Rmin u' x
  end.

(** [np.clip(u, lo, hi)] is [minimum(maximum(u, lo), hi)]. *)
Definition clip1 (x lo hi : R) : R := Rmin (Rmax x lo) hi.

Definition clip (u lo hi : vec) : vec :=
  map2 (fun x b => clip1 x (fst b) (snd b)) u (combine lo hi).

(** ** The ratio test: [update_trust_region_radius] *)

(** A float as numpy can produce it. *)
Inductive fval : Type :=
| Finite (x : R)
| PosInf
| NegInf
| NaN.

(** The two scalar types the arguments can have.  [np.dot] returns a
    [numpy.float64]; a literal or a settings field is a Python float.
    The float [-0.0], which the reals cannot tell from [0.0], has a
    constructor of its own in each type; [PyFloat 0] and [NpFloat64 0]
    are [+0.0]. *)
Inductive scalar : Type :=
| PyFloat (x : R)
| NpFloat64 (x : R)
| PyNegZero
| NpNegZero.

Definition value (a : scalar) : R :=
  match a with
  | PyFloat x => x
  | NpFloat64 x => x
  | PyNegZero => 0
  | NpNegZero => 0
  end.

(** Whether the scalar is [-0.0]. *)
Definition neg_zero (a : scalar) : bool :=
  match a with
  | PyNegZero | NpNegZero => true
  | PyFloat _ | NpFloat64 _ => false
  end.

(** The IEEE quotient [a / b] for a zero [b]: an infinity whose sign is
    the sign of [a] times the sign of the zero, [nan] for a zero [a]. *)
Definition div_by_zero (a b : scalar) : fval :=
  if Rlt_dec 0 (value a) then (if neg_zero b then NegInf else PosInf)
  else if Rlt_dec (value a) 0 then (if neg_zero b then PosInf else NegInf)
  else NaN.

(** [a / b].  Two Python floats raise on a zero divisor; as soon as one
    operand is a [numpy.float64] the numpy division runs, which only
    warns and returns [inf], [-inf] or [nan]. *)
Definition truediv (a b : scalar) : outcome fval :=
  if Req_dec_T (value b) 0 then
    match a, b with
    | (PyFloat _ | PyNegZero), (PyFloat _ | PyNegZero) =>
        Raise ZeroDivisionError
    | _, _ => Ok (div_by_zero a b)
    end
  else Ok (Finite (value a / value b)).

(** [d <= c] and [d >= c] for a finite threshold [c]; every comparison
    with [nan] is false. *)
Definition fle (d : fval) (c : R) : bool :=
  match d with
  | Finite x => Rleb x c
  | NegInf => true
  | PosInf | NaN => false
  end.

Definition fge (d : fval) (c : R) : bool :=
  match d with
  | Finite x => Rgeb x c
  | PosInf => true
  | NegInf | NaN => false
  end.

Definition update_trust_region_radius (settings : RbfoptSettings)
    (tr_radius : R) (model_obj_diff real_obj_diff : scalar)
  : outcome (R * bool) :=
  _ <- assert (Rgeb tr_radius 0) ;;
  decrease <- truediv real_obj_diff model_obj_diff ;;
  let tr_radius' :=
    if fle decrease (tr_acceptable_decrease_shrink settings) then
      tr_radius * 0.5
    else if fge decrease (tr_acceptable_decrease_enlarge settings) then
      tr_radius * 2
    else tr_radius in
  Ok (tr_radius', fge decrease (tr_acceptable_decrease_move settings)).

(** ** The descent step: [get_candidate_point] *)

(** The mask [(h > 0) * (start_point >= var_lower + min_dist)]. *)
Definition loc_lower (settings : RbfoptSettings) (var_lower h start_point : vec)
  : list bool :=
  map2 andb (map (fun x => Rgtb x 0) h)
       (map2 Rgeb start_point (vadd_scalar var_lower (min_dist settings))).

(** The mask [(h < 0) * (start_point <= var_upper - min_dist)]. *)
Definition loc_upper (settings : RbfoptSettings) (var_upper h start_point : vec)
  : list bool :=
  map2 andb (map (fun x => Rltb x 0) h)
       (map2 Rleb start_point (vsub_scalar var_upper (min_dist settings))).

(** [(start_point[loc] - bound[loc]) / h[loc]] *)
Definition to_bound (loc : list bool) (bound h start_point : vec) : vec :=
  vdiv (vsub (select loc start_point) (select loc bound)) (select loc h).

(** The step length [max_t] after both bound tests. *)
Definition max_step (settings : RbfoptSettings) (var_lower var_upper h
    start_point : vec) (tr_radius : R) : R :=
  let max_t := tr_radius / norm h in
  let loc := loc_lower settings var_lower h start_point in
  let max_t :=
    if any loc then py_min max_t (np_min (to_bound loc var_lower h start_point))
    else max_t in
  let loc := loc_upper settings var_upper h start_point in
  if any loc then py_min max_t (np_min (to_bound loc var_upper h start_point))
  else max_t.

(** With a zero gradient [max_t] is [inf] or [nan], and so is every
    coordinate of the candidate; only the empty vector comes back
    finite. *)
Definition get_candidate_point (settings : RbfoptSettings) (n k : nat)
    (var_lower var_upper h start_point : vec) (tr_radius : R)
  : outcome (vec * R * R) :=
  _ <- assert (length var_lower =? n)%nat ;;
  _ <- assert (length var_upper =? n)%nat ;;
  _ <- assert (length start_point =? n)%nat ;;
  _ <- assert (length h =? n)%nat ;;
  _ <- assert (Rgeb tr_radius 0) ;;
  if Req_dec_T (norm h) 0 then
    match h with
    | [] => Ok ([], 0, 0)
    | _ :: _ => NotFinite
    end
  else
    let max_t := max_step settings var_lower var_upper h start_point tr_radius in
    let candidate :=
      clip (vsub start_point (vscale max_t h)) var_lower var_upper in
    Ok (candidate, dot h (vsub start_point candidate), norm h).

(** ** Index arrays *)

(** A numpy index into an axis of length [n]: negative indices count
    from the end, anything outside [-n, n) raises. *)
Definition index (n : nat) (i : Z) : outcome nat :=
  if (0 <=? i)%Z && (i <? Z.of_nat n)%Z then Ok (Z.to_nat i)
  else if (- Z.of_nat n <=? i)%Z && (i <? 0)%Z then Ok (Z.to_nat (i + Z.of_nat n))
  else Raise IndexError.

(** [u[idx]] for an index array. *)
Fixpoint take {A : Type} (d : A) (u : list A) (idx : list Z)
  : outcome (list A) :=
  match idx with
  | [] => Ok []
  | i :: idx' =>
      j <- index (length u) i ;;
      rest <- take d u idx' ;;
      Ok (nth j u d :: rest)
  end.

(** Replace position [j]. *)
Fixpoint update {A : Type} (u : list A) (j : nat) (x : A) : list A :=
  match u, j with
  | [], _ => []
  | _ :: u', O => x :: u'
  | y :: u', S j' => y :: update u' j' x
  end.

(** [u[idx] = vals], one assignment after the other. *)
Fixpoint put {A : Type} (u : list A) (idx : list Z) (vals : list A)
  : outcome (list A) :=
  match idx, vals with
  | i :: idx', x :: vals' =>
      j <- index (length u) i ;;
      put (update u j x) idx' vals'
  | _, _ => Ok u
  end.

(** ** Rounding to integers: [get_integer_candidate] *)

(** [np.floor] and [np.ceil] *)
Definition Rfloor (x : R) : R := IZR (Int_part x).
Definition Rceil (x : R) : R := - IZR (Int_part (- x)).

(** [np.where(c, a, b)] *)
Fixpoint np_where {A : Type} (c : list bool) (a b : list A) : list A :=
  match c, a, b with
  | t :: c', x :: a', y :: b' => (if t then x else y) :: np_where c' a' b'
  | _, _, _ => []
  end.

Definition get_integer_candidate (settings : RbfoptSettings) (n k : nat)
    (h point : vec) (integer_vars : list Z) : outcome (vec * R) :=
  _ <- assert (length point =? n)%nat ;;
  _ <- assert (length h =? n)%nat ;;
  let rounded := point in
  h_int <- take 0 h integer_vars ;;
  point_int <- take 0 point integer_vars ;;
  let vals := np_where (map (fun x => Rgeb x 0) h_int)
                       (map Rfloor point_int) (map Rceil point_int) in
  rounded <- put rounded integer_vars vals ;;
  Ok (rounded, dot h (vsub point rounded)).

(** ** Choosing the model set: [init_trust_region] *)

(** One row of [scipy.spatial.distance.cdist]: Euclidean distance. *)
Definition euclidean (u v : vec) : R := norm (vsub u v).

(** [cdist(np.atleast_2d(center), node_pos)[0]]; the two arrays must
    have the same number of columns. *)
Definition cdist_row (center : vec) (node_pos : list vec) : outcome vec :=
  if forallb (fun p => length p =? length center)%nat node_pos
  then Ok (map (euclidean center) node_pos)
  else Raise ValueError.

(** Stable insertion of index [i] by its key: [i] goes in front of the
    first index whose key is not smaller. *)
Fixpoint insert_by (key : nat -> R) (i : nat) (l : list nat) : list nat :=
  match l with
  | [] => [i]
  | j :: l' =>
      if Rle_dec (key i) (key j) then i :: j :: l'
      else j :: insert_by key i l'
  end.

Definition sort_by (key : nat -> R) (l : list nat) : list nat :=
  fold_right (insert_by key) [] l.

(** [np.lexsort((keys,))]: the indices of [keys] in ascending key
    order; the sort is stable. *)
Definition lexsort (keys : vec) : list nat :=
  sort_by (fun i => nth i keys 0) (seq 0 (length keys)).

(** Ascending sort of the values themselves. *)
Fixpoint insert_val (x : R) (l : vec) : vec :=
  match l with
  | [] => [x]
  | y :: l' => if Rle_dec x y then x :: y :: l' else y :: insert_val x l'
  end.

Definition sort_val (l : vec) : vec := fold_right insert_val [] l.

(** Linear interpolation in an ascending array at the virtual position
    [q / 100 * (len - 1)]. *)
Definition interpolate (s : vec) (q : R) : R :=
  let pos := q / 100 * INR (length s - 1) in
  let lo := Z.to_nat (Int_part pos) in
  let hi := Nat.min (lo + 1) (length s - 1) in
  nth lo s 0 + (nth hi s 0 - nth lo s 0) * (pos - INR lo).

(** [np.percentile(a, q)] with the default linear interpolation; [q] is
    on the scale 0 to 100.  On an empty array the lookup of the
    entries to interpolate between raises [IndexError]. *)
Definition np_percentile (a : vec) (q : R) : outcome R :=
  if Rleb 0 q && Rleb q 100 then
    match a with
    | [] => Raise IndexError
    | _ :: _ => Ok (interpolate (sort_val a) q)
    end
  else Raise ValueError.

Definition init_trust_region (settings : RbfoptSettings) (n k : nat)
    (node_pos : list vec) (center : vec) : outcome (list nat * R) :=
  _ <- assert (length node_pos =? k)%nat ;;
  _ <- assert (2 <=? k)%nat ;;
  _ <- assert (length center =? n)%nat ;;
  dist <- cdist_row center node_pos ;;
  let dist_order := lexsort dist in
  let num_to_keep := Nat.min (2 * n + 1) k in
  let model_set := firstn num_to_keep dist_order in
  p <- np_percentile (map (fun i => nth i dist 0) (tl model_set)) 0.25 ;;
  let tr_radius := py_max p (min_tr_radius settings * 2 ^ 4) in
  Ok (model_set, tr_radius).

(** ** Fitting the model: [get_linear_model] *)

(** The names bound at module level when a function body runs: the
    three [__future__] features, the four imports and the five
    functions. *)
Definition module_globals : list string :=
  ["print_function"; "division"; "absolute_import";
   "np"; "ss"; "config"; "RbfoptSettings";
   "init_trust_region"; "get_linear_model"; "get_candidate_point";
   "get_integer_candidate"; "update_trust_region_radius"]%string.

(** Reading a global name. *)
Definition load_global (name : string) : outcome unit :=
  if existsb (String.eqb name) module_globals then Ok tt
  else Raise NameError.

(** [np.hstack((rows, np.ones((len(rows), 1))))] *)
Definition hstack_ones (rows : list vec) : list vec :=
  map (fun r => r ++ [1]) rows.

Section LinearModel.

(** [np.linalg.lstsq(a, b)[0]]; [None] stands for the call raising
    [numpy.linalg.LinAlgError]. *)
Variable lstsq : list vec -> vec -> option vec.

Definition get_linear_model (settings : RbfoptSettings) (n k : nat)
    (node_pos : list vec) (node_val : vec) (model_set : list Z)
  : outcome (vec * R) :=
  _ <- assert (length node_pos =? k)%nat ;;
  _ <- assert (length node_val =? k)%nat ;;
  rows <- take [] node_pos model_set ;;
  let lstsq_mat := hstack_ones rows in
  rhs <- take 0 node_val model_set ;;
  match lstsq lstsq_mat rhs with
  | Some x =>
      let h := firstn n x in
      match x with
      | [] => Raise IndexError
      | _ :: _ => Ok (h, last x 0)
      end
  | None =>
      (* the handler: print(..., file=sys.stderr); print(e, ...); raise e *)
      _ <- load_global "sys" ;;
      _ <- load_global "sys" ;;
      Raise LinAlgError
  end.

End LinearModel.

(** ** The contracts, in the words of the specification *)

(** The step lengths the contract of the descent step takes the
    minimum of: the radius-limited step, and one step per coordinate
    that can still move towards its lower (positive gradient entry) or
    upper (negative gradient entry) bound. *)
Inductive step_bound (settings : RbfoptSettings)
    (var_lower var_upper h start_point : vec) (tr_radius : R) : R -> Prop :=
| step_radius :
    step_bound settings var_lower var_upper h start_point tr_radius
      (tr_radius / norm h)
| step_lower (i : nat) :
    (i < length h)%nat ->
    nth i h 0 > 0 ->
    nth i start_point 0 >= nth i var_lower 0 + min_dist settings ->
    step_bound settings var_lower var_upper h start_point tr_radius
      ((nth i start_point 0 - nth i var_lower 0) / nth i h 0)
| step_upper (i : nat) :
    (i < length h)%nat ->
    nth i h 0 < 0 ->
    nth i start_point 0 <= nth i var_upper 0 - min_dist settings ->
    step_bound settings var_lower var_upper h start_point tr_radius
      ((nth i start_point 0 - nth i var_upper 0) / nth i h 0).

(** [t] is the least of the values that satisfy [P]. *)
Definition is_minimum (P : R -> Prop) (t : R) : Prop :=
  P t /\ forall v, P v -> t <= v.

(** [y] is the floor of [x]: the integer with [y <= x < y + 1]. *)
Definition is_floor (x y : R) : Prop :=
  exists z : Z, y = IZR z /\ IZR z <= x < IZR z + 1.

(** [y] is the ceiling of [x]: the integer with [y - 1 < x <= y]. *)
Definition is_ceil (x y : R) : Prop :=
  exists z : Z, y = IZR z /\ IZR z - 1 < x <= IZR z.

(** The value [get_integer_candidate] assigns to coordinate [j]. *)
Definition round_at (h point : vec) (j : nat) : R :=
  if Rgeb (nth j h 0) 0 then Rfloor (nth j point 0) else Rceil (nth j point 0).

(** Node [i] comes before node [j] in the order of the contract of
    [init_trust_region]: it is nearer, or as near and earlier in the
    source order. *)
Definition closer (dist : nat -> R) (i j : nat) : Prop :=
  dist i < dist j \/ (dist i = dist j /\ (i < j)%nat).

(** Whether a scalar is a Python float. *)
Definition is_py (a : scalar) : bool :=
  match a with
  | PyFloat _ | PyNegZero => true
  | NpFloat64 _ | NpNegZero => false
  end.

(** The position a valid numpy index [i] denotes on an axis of length
    [n]: negative indices count from the end. *)
Definition wrap (n : nat) (i : Z) : nat :=
  Z.to_nat (if (i <? 0)%Z then i + Z.of_nat n else i)%Z.

(** [start_point - t * h], the unclipped step. *)
Definition step_from (start_point h : vec) (t : R) : vec :=
  vsub start_point (vscale t h).

(** [u + c] for two arrays. *)
Definition vadd (u c : vec) : vec := map2 Rplus u c.

(** ** The test modules *)

Module TestRefinement.

(** [dist(a, b)] of [tests/test_rbfopt_refinement.py]:
    [np.sqrt(np.dot(a-b, a-b))]. *)
Definition dist (a b : vec) : R := sqrt (dot (vsub a b) (vsub a b)).

(** The size [test_init_trust_region] expects of the model set. *)
Definition expected_size (n k : nat) : nat := Nat.min k (n + 1).

(** [test_update_trust_region_radius]: three calls with radius 1 and
    model difference 10, each followed by one check; the test passes
    when it runs to the end. *)
Definition test_update_trust_region_radius (settings : RbfoptSettings)
  : outcome unit :=
  let model_diff := 10 in
  let tr_radius := 1 in
  r <- update_trust_region_radius settings tr_radius (PyFloat model_diff)
         (PyFloat (model_diff * tr_acceptable_decrease_shrink settings
                   - 1 / 1000)) ;;
  _ <- assert (Rltb (fst r) tr_radius) ;;
  r <- update_trust_region_radius settings tr_radius (PyFloat model_diff)
         (PyFloat (model_diff * tr_acceptable_decrease_enlarge settings
                   + 1 / 1000)) ;;
  _ <- assert (Rgtb (fst r) tr_radius) ;;
  r <- update_trust_region_radius settings tr_radius (PyFloat model_diff)
         (PyFloat (model_diff * tr_acceptable_decrease_move settings
                   + 1 / 1000)) ;;
  _ <- assert (snd r) ;;
  Ok tt.

End TestRefinement.

Module TestAuxProblems.

(** [sum(...)] of Python: a left fold from 0. *)
Definition py_sum (l : vec) : R := fold_left Rplus l 0.

(** [quadratic(points)] of [tests/test_rbfopt_aux_problems.py]. *)
Definition quadratic (points : list vec) : vec :=
  map (fun point => py_sum (map (fun val => val * val) point)) points.

(** [shifted_quadratic(points)] *)
Definition shifted_quadratic (points : list vec) : vec :=
  map (fun point => py_sum (map (fun val => (val - 1) * (val - 1)) point))
      points.

End TestAuxProblems.

(** * Properties *)

(** ** Booleans and the order of [R] *)

Lemma Rltb_true (x y : R) : Rltb x y = true <-> x < y.
Proof. unfold Rltb; destruct (Rlt_dec x y); split; intros; try easy. Qed.

Lemma Rleb_true (x y : R) : Rleb x y = true <-> x <= y.
Proof. unfold Rleb; destruct (Rle_dec x y); split; intros; try easy. Qed.

Lemma Rgeb_true (x y : R) : Rgeb x y = true <-> x >= y.
Proof. unfold Rgeb; rewrite Rleb_true; split; lra. Qed.

Lemma Rgtb_true (x y : R) : Rgtb x y = true <-> x > y.
Proof. unfold Rgtb; rewrite Rltb_true; split; lra. Qed.

Lemma Rleb_false (x y : R) : Rleb x y = false <-> ~ x <= y.
Proof. unfold Rleb; destruct (Rle_dec x y); split; intros; try easy. Qed.

Lemma Rgeb_false (x y : R) : Rgeb x y = false <-> ~ x >= y.
Proof. unfold Rgeb; rewrite Rleb_false; split; lra. Qed.

Lemma py_min_Rmin (a b : R) : py_min a b = Rmin a b.
Proof.
  unfold py_min, Rmin.
  destruct (Rlt_dec b a), (Rle_dec a b); lra.
Qed.

Lemma py_max_Rmax (a b : R) : py_max a b = Rmax a b.
Proof.
  unfold py_max, Rmax.
  destruct (Rlt_dec a b), (Rle_dec a b); lra.
Qed.

(** Decide the comparisons of a goal over concrete numbers, one at a
    time, simplifying in between. *)
Ltac Rdecide_step :=
  let H := fresh in
  match goal with
  | |- context [Rle_dec ?a ?b] =>
      (assert (H : a <= b) by lra;
       destruct (Rle_dec a b); [|contradiction]; clear H) ||
      (assert (H : ~ a <= b) by lra;
       destruct (Rle_dec a b); [contradiction|]; clear H)
  | |- context [Rlt_dec ?a ?b] =>
      (assert (H : a < b) by lra;
       destruct (Rlt_dec a b); [|contradiction]; clear H) ||
      (assert (H : ~ a < b) by lra;
       destruct (Rlt_dec a b); [contradiction|]; clear H)
  | |- context [Req_dec_T ?a ?b] =>
      (assert (H : a = b) by lra;
       destruct (Req_dec_T a b); [|contradiction]; clear H) ||
      (assert (H : a <> b) by lra;
       destruct (Req_dec_T a b); [contradiction|]; clear H)
  end.

Ltac Rdecide := simpl; repeat (Rdecide_step; simpl).

(** ** [update_trust_region_radius] *)

Lemma assert_radius (r : R) : 0 <= r -> assert (Rgeb r 0) = Ok tt.
Proof.
  intros Hr. unfold assert.
  destruct (Rgeb r 0) eqn:E; [reflexivity|].
  apply Rgeb_false in E. lra.
Qed.

Lemma truediv_nonzero (a b : scalar) :
  value b <> 0 -> truediv a b = Ok (Finite (value a / value b)).
Proof.
  intros Hb. unfold truediv.
  destruct (Req_dec_T (value b) 0); [contradiction|reflexivity].
Qed.

(** C2: with a non-zero model difference the radius is halved when the
    ratio real/model is at most the shrink threshold, doubled when it is
    at least the enlarge threshold (and the shrink test failed), kept
    otherwise; the flag is true exactly when the ratio is at least the
    move threshold. *)
Theorem update_trust_region_radius_spec (settings : RbfoptSettings)
    (tr_radius : R) (model_obj_diff real_obj_diff : scalar) :
  0 <= tr_radius ->
  value model_obj_diff <> 0 ->
  let decrease_ratio := value real_obj_diff / value model_obj_diff in
  exists (new_radius : R) (accept : bool),
    update_trust_region_radius settings tr_radius model_obj_diff real_obj_diff
      = Ok (new_radius, accept) /\
    (decrease_ratio <= tr_acceptable_decrease_shrink settings ->
       new_radius = tr_radius * 0.5) /\
    (~ decrease_ratio <= tr_acceptable_decrease_shrink settings ->
     decrease_ratio >= tr_acceptable_decrease_enlarge settings ->
       new_radius = tr_radius * 2) /\
    (~ decrease_ratio <= tr_acceptable_decrease_shrink settings ->
     ~ decrease_ratio >= tr_acceptable_decrease_enlarge settings ->
       new_radius = tr_radius) /\
    (accept = true <->
       decrease_ratio >= tr_acceptable_decrease_move settings).
Proof.
  intros Hr Hm ratio.
  unfold update_trust_region_radius.
  rewrite (assert_radius _ Hr), (truediv_nonzero _ _ Hm).
  cbn [bind fle fge]. fold ratio.
  eexists; eexists; split; [reflexivity|].
  destruct (Rleb ratio (tr_acceptable_decrease_shrink settings)) eqn:Es.
  - apply Rleb_true in Es.
    repeat split; try tauto; try apply Rgeb_true.
  - apply Rleb_false in Es.
    destruct (Rgeb ratio (tr_acceptable_decrease_enlarge settings)) eqn:Ee.
    + apply Rgeb_true in Ee. repeat split; try tauto; try apply Rgeb_true.
    + apply Rgeb_false in Ee. repeat split; try tauto; try apply Rgeb_true.
Qed.

Lemma update_trust_region_radius_spec_witness :
  0 <= 1 /\ value (PyFloat 10) <> 0 /\
  exists (new_radius : R) (accept : bool),
    update_trust_region_radius sample_settings 1 (PyFloat 10) (PyFloat 7)
      = Ok (new_radius, accept) /\
    new_radius = 1 * 2 /\ accept = true.
Proof.
  assert (H0 : 0 <= 1) by lra.
  assert (H1 : value (PyFloat 10) <> 0) by (simpl; lra).
  split; [exact H0|]. split; [exact H1|].
  destruct (update_trust_region_radius_spec sample_settings 1
              (PyFloat 10) (PyFloat 7) H0 H1)
    as (r & a & E & _ & Hen & _ & Hacc).
  exists r, a. split; [exact E|]. simpl in Hen, Hacc. split.
  - apply Hen; lra.
  - apply Hacc; lra.
Defined.

(** *** A zero model difference *)

Lemma truediv_zero (a b : scalar) :
  value b = 0 ->
  truediv a b = if is_py b && is_py a then Raise ZeroDivisionError
                else Ok (div_by_zero a b).
Proof.
  intros Hb. unfold truediv.
  destruct (Req_dec_T (value b) 0) as [_|N]; [|contradiction].
  destruct a, b; reflexivity.
Qed.

Lemma update_run_float64_zero :
  update_trust_region_radius sample_settings 1 (NpFloat64 0) (NpFloat64 1)
    = Ok (1 * 2, true).
Proof.
  unfold update_trust_region_radius.
  rewrite assert_radius by lra.
  rewrite truediv_zero by reflexivity.
  unfold div_by_zero; simpl.
  destruct (Rlt_dec 0 1) as [_|N]; [|lra].
  reflexivity.
Qed.

(** One call with a zero [numpy.float64] model difference: it returns
    a doubled radius and accepts the step; nothing is raised. *)
Lemma update_zero_model_diff_returns :
  value (NpFloat64 0) = 0 /\
  update_trust_region_radius sample_settings 1 (NpFloat64 0) (NpFloat64 1)
    = Ok (1 * 2, true) /\
  ~ raises (update_trust_region_radius sample_settings 1
              (NpFloat64 0) (NpFloat64 1)).
Proof.
  split; [reflexivity|]. split; [exact update_run_float64_zero|].
  intros [e He]. rewrite update_run_float64_zero in He. discriminate.
Qed.

(** C5, as the code has it: the division is not guarded.  With a zero
    model difference two Python floats raise [ZeroDivisionError]; with a
    [numpy.float64] operand the call returns.  The ratio is [inf] when
    the real difference is positive and the zero is [+0.0] or the real
    difference is negative and the zero is [-0.0]: radius doubled, step
    accepted.  It is [-inf] in the two opposite cases: radius halved,
    step rejected.  It is [nan] for a zero real difference: radius
    kept, step rejected.  In every case the radius that comes back is
    the one that went in times 0.5, 1 or 2. *)
Theorem update_zero_model_diff (settings : RbfoptSettings) (tr_radius : R)
    (model_obj_diff real_obj_diff : scalar) :
  0 <= tr_radius ->
  value model_obj_diff = 0 ->
  let call := update_trust_region_radius settings tr_radius
                model_obj_diff real_obj_diff in
  (is_py model_obj_diff && is_py real_obj_diff = true ->
     call = Raise ZeroDivisionError) /\
  (is_py model_obj_diff && is_py real_obj_diff = false ->
     (0 < value real_obj_diff -> neg_zero model_obj_diff = false ->
        call = Ok (tr_radius * 2, true)) /\
     (value real_obj_diff < 0 -> neg_zero model_obj_diff = true ->
        call = Ok (tr_radius * 2, true)) /\
     (0 < value real_obj_diff -> neg_zero model_obj_diff = true ->
        call = Ok (tr_radius * 0.5, false)) /\
     (value real_obj_diff < 0 -> neg_zero model_obj_diff = false ->
        call = Ok (tr_radius * 0.5, false)) /\
     (value real_obj_diff = 0 -> call = Ok (tr_radius, false)) /\
     exists (new_radius : R) (accept : bool),
       call = Ok (new_radius, accept) /\
       (new_radius = tr_radius * 0.5 \/ new_radius = tr_radius \/
        new_radius = tr_radius * 2)).
Proof.
  intros Hr Hm call. subst call.
  unfold update_trust_region_radius.
  rewrite (assert_radius _ Hr), (truediv_zero _ _ Hm). cbn [bind].
  split; [intros ->; reflexivity|].
  intros ->. cbn [bind]. unfold div_by_zero.
  destruct (Rlt_dec 0 (value real_obj_diff)) as [Hpos|Hnpos];
    [|destruct (Rlt_dec (value real_obj_diff) 0) as [Hneg|Hnneg]];
    destruct (neg_zero model_obj_diff); cbn [fle fge];
    (split; [intros ? ?; try lra; try discriminate; reflexivity|]);
    (split; [intros ? ?; try lra; try discriminate; reflexivity|]);
    (split; [intros ? ?; try lra; try discriminate; reflexivity|]);
    (split; [intros ? ?; try lra; try discriminate; reflexivity|]);
    (split; [intros ?; try lra; reflexivity|]);
    eexists; eexists; (split; [reflexivity|]); tauto.
Qed.

Lemma update_zero_model_diff_witness :
  0 <= 1 /\ value NpNegZero = 0 /\ value (PyFloat 0) = 0 /\
  update_trust_region_radius sample_settings 1 NpNegZero (NpFloat64 1)
    = Ok (1 * 0.5, false) /\
  update_trust_region_radius sample_settings 1 (PyFloat 0) (PyFloat 1)
    = Raise ZeroDivisionError.
Proof.
  assert (H0 : 0 <= 1) by lra.
  assert (H1 : 0 < value (NpFloat64 1)) by (simpl; lra).
  split; [exact H0|]. split; [reflexivity|]. split; [reflexivity|]. split.
  - destruct (update_zero_model_diff sample_settings 1 NpNegZero
                (NpFloat64 1) H0 eq_refl) as (_ & Hnp).
    destruct (Hnp eq_refl) as (_ & _ & Hhalved & _).
    exact (Hhalved H1 eq_refl).
  - destruct (update_zero_model_diff sample_settings 1 (PyFloat 0)
                (PyFloat 1) H0 eq_refl) as (Hpy & _).
    exact (Hpy eq_refl).
Defined.

(** ** Vectors by coordinate *)

Lemma length_map2 {A B C : Type} (f : A -> B -> C) (u : list A) (v : list B) :
  length (map2 f u v) = Nat.min (length u) (length v).
Proof. unfold map2. now rewrite length_map, length_combine. Qed.

Lemma nth_map2 {A B C : Type} (f : A -> B -> C) (u : list A) (v : list B)
    (i : nat) (da : A) (db : B) (dc : C) :
  (i < length u)%nat -> (i < length v)%nat ->
  nth i (map2 f u v) dc = f (nth i u da) (nth i v db).
Proof.
  unfold map2. revert v i.
  induction u as [|a u IH]; intros [|b v] [|i]; simpl; intros Hu Hv;
    try lia; [reflexivity|].
  apply IH; lia.
Qed.

Lemma nth_map_in {A B : Type} (f : A -> B) (u : list A) (i : nat)
    (da : A) (db : B) :
  (i < length u)%nat -> nth i (map f u) db = f (nth i u da).
Proof.
  revert i. induction u as [|a u IH]; intros [|i]; simpl; intros Hu;
    try lia; [reflexivity|].
  apply IH; lia.
Qed.

Lemma length_clip (u lo hi : vec) (n : nat) :
  length u = n -> length lo = n -> length hi = n -> length (clip u lo hi) = n.
Proof.
  intros Hu Hl Hh. unfold clip.
  rewrite length_map2, length_combine. lia.
Qed.

Lemma nth_clip (u lo hi : vec) (i : nat) :
  (i < length u)%nat -> length lo = length u -> length hi = length u ->
  nth i (clip u lo hi) 0 = clip1 (nth i u 0) (nth i lo 0) (nth i hi 0).
Proof.
  intros Hi Hl Hh. unfold clip.
  rewrite (nth_map2 _ _ _ _ 0 (0, 0)).
  - rewrite combine_nth by congruence. reflexivity.
  - exact Hi.
  - rewrite length_combine. lia.
Qed.

Lemma dot_cons (a b : R) (u v : vec) :
  dot (a :: u) (b :: v) = a * b + dot u v.
Proof. reflexivity. Qed.

Lemma dot_nonneg (u v : vec) :
  (forall i, (i < length u)%nat -> (i < length v)%nat ->
             0 <= nth i u 0 * nth i v 0) ->
  0 <= dot u v.
Proof.
  revert v. induction u as [|a u IH]; intros [|b v] H;
    try (unfold dot; simpl; lra).
  rewrite dot_cons.
  assert (H0 := H 0%nat). simpl in H0.
  assert (0 <= dot u v).
  { apply IH. intros i Hu Hv. apply (H (S i)); simpl; lia. }
  assert (0 <= a * b) by (apply H0; lia).
  lra.
Qed.

Lemma dot_self_le (c : R) (u v : vec) :
  length u = length v ->
  (forall i, (i < length u)%nat ->
             nth i u 0 * nth i u 0 <= c * (nth i v 0 * nth i v 0)) ->
  dot u u <= c * dot v v.
Proof.
  revert v. induction u as [|a u IH]; intros [|b v] Hl H;
    try discriminate; try (unfold dot; simpl; lra).
  rewrite !dot_cons.
  assert (H0 := H 0%nat). simpl in H0.
  assert (dot u u <= c * dot v v).
  { apply IH; [simpl in Hl; lia|].
    intros i Hu. apply (H (S i)); simpl; lia. }
  assert (a * a <= c * (b * b)) by (apply H0; lia).
  lra.
Qed.

Lemma dot_vsub_r (h u v : vec) :
  length u = length h -> length v = length h ->
  dot h (vsub u v) = dot h u - dot h v.
Proof.
  revert u v. induction h as [|a h IH]; intros [|b u] [|c v] Hu Hv;
    try discriminate; try (unfold dot; simpl; lra).
  unfold vsub, map2. simpl. fold (map2 Rminus u v). fold (vsub u v).
  rewrite !dot_cons, IH by (simpl in *; lia). lra.
Qed.

(** ** Masks *)

Lemma any_true (mask : list bool) :
  any mask = true <-> exists i, (i < length mask)%nat /\ nth i mask false = true.
Proof.
  unfold any. rewrite existsb_exists. split.
  - intros (b & Hin & Hb). subst b.
    destruct (In_nth _ _ false Hin) as (i & Hi & E). now exists i.
  - intros (i & Hi & E). exists true. split; [|reflexivity].
    rewrite <- E. now apply nth_In.
Qed.

Lemma select_map2 {A B C : Type} (f : A -> B -> C) (mask : list bool)
    (u : list A) (v : list B) :
  select mask (map2 f u v) = map2 f (select mask u) (select mask v).
Proof.
  unfold map2. revert u v.
  induction mask as [|b mask IH]; intros [|x u] [|y v]; simpl;
    try reflexivity.
  - destruct b; simpl; [reflexivity|].
    now rewrite combine_nil.
  - destruct b; simpl; now rewrite IH.
Qed.

Lemma In_select {A : Type} (mask : list bool) (u : list A) (d x : A) :
  length u = length mask ->
  (In x (select mask u) <->
   exists i, (i < length mask)%nat /\ nth i mask false = true /\ nth i u d = x).
Proof.
  revert u. induction mask as [|b mask IH]; intros [|y u] Hl;
    try discriminate.
  - simpl. split; [easy|]. intros (i & Hi & _). lia.
  - simpl in Hl. injection Hl as Hl. simpl select.
    assert (IH' := IH u Hl). split.
    + intros Hin.
      assert (Hcase : (b = true /\ y = x) \/ In x (select mask u)).
      { destruct b; [destruct Hin; auto|auto]. }
      destruct Hcase as [[Hb Hy]|Hin'].
      * exists 0%nat. simpl. repeat split; [lia|assumption|assumption].
      * apply IH' in Hin'. destruct Hin' as (i & Hi & Hm & Hx).
        exists (S i). simpl. repeat split; [lia|assumption|assumption].
    + intros (i & Hi & Hm & Hx). destruct i as [|i]; simpl in *.
      * subst b. now left.
      * assert (In x (select mask u)).
        { apply IH'. exists i. repeat split; [lia|assumption|assumption]. }
        destruct b; [now right|assumption].
Qed.

(** ** Minimum of an array *)

Lemma fold_left_Rmin_spec (u : vec) (x : R) :
  (fold_left Rmin u x = x \/ In (fold_left Rmin u x) u) /\
  fold_left Rmin u x <= x /\
  (forall y, In y u -> fold_left Rmin u x <= y).
Proof.
  revert x. induction u as [|a u IH]; intros x; simpl.
  - repeat split; [now left|lra|easy].
  - destruct (IH (Rmin x a)) as (Hin & Hle & Hall).
    assert (Hx := Rmin_l x a). assert (Ha := Rmin_r x a).
    repeat split.
    + destruct Hin as [E|Hin]; [|now right; right].
      rewrite E. unfold Rmin. destruct (Rle_dec x a); [now left|now right; left].
    + lra.
    + intros y [Hy|Hy]; [subst; lra|now apply Hall].
Qed.

Lemma np_min_spec (u : vec) :
  u <> [] -> In (np_min u) u /\ forall y, In y u -> np_min u <= y.
Proof.
  destruct u as [|x u]; [easy|]. intros _. unfold np_min.
  destruct (fold_left_Rmin_spec u x) as (Hin & Hle & Hall). split.
  - destruct Hin as [E|Hin]; [rewrite E; now left|now right].
  - intros y [Hy|Hy]; [subst; lra|now apply Hall].
Qed.

(** ** [get_candidate_point] *)

Section CandidatePoint.

Variable settings : RbfoptSettings.
Variable n : nat.
Variables var_lower var_upper h start_point : vec.
Variable tr_radius : R.

Hypothesis len_lower : length var_lower = n.
Hypothesis len_upper : length var_upper = n.
Hypothesis len_start : length start_point = n.
Hypothesis len_h : length h = n.

Lemma length_loc_lower :
  length (loc_lower settings var_lower h start_point) = n.
Proof.
  unfold loc_lower, vadd_scalar.
  rewrite !length_map2, !length_map. lia.
Qed.

Lemma length_loc_upper :
  length (loc_upper settings var_upper h start_point) = n.
Proof.
  unfold loc_upper, vsub_scalar.
  rewrite !length_map2, !length_map. lia.
Qed.

Lemma nth_loc_lower (i : nat) :
  (i < n)%nat ->
  (nth i (loc_lower settings var_lower h start_point) false = true <->
   nth i h 0 > 0 /\
   nth i start_point 0 >= nth i var_lower 0 + min_dist settings).
Proof.
  intros Hi. unfold loc_lower, vadd_scalar.
  rewrite (nth_map2 _ _ _ _ false false)
    by (rewrite ?length_map2, ?length_map; lia).
  rewrite (nth_map_in _ _ _ 0) by lia.
  rewrite (nth_map2 _ _ _ _ 0 0) by (rewrite ?length_map; lia).
  rewrite (nth_map_in _ _ _ 0) by lia.
  rewrite andb_true_iff, Rgtb_true, Rgeb_true. tauto.
Qed.

Lemma nth_loc_upper (i : nat) :
  (i < n)%nat ->
  (nth i (loc_upper settings var_upper h start_point) false = true <->
   nth i h 0 < 0 /\
   nth i start_point 0 <= nth i var_upper 0 - min_dist settings).
Proof.
  intros Hi. unfold loc_upper, vsub_scalar.
  rewrite (nth_map2 _ _ _ _ false false)
    by (rewrite ?length_map2, ?length_map; lia).
  rewrite (nth_map_in _ _ _ 0) by lia.
  rewrite (nth_map2 _ _ _ _ 0 0) by (rewrite ?length_map; lia).
  rewrite (nth_map_in _ _ _ 0) by lia.
  rewrite andb_true_iff, Rltb_true, Rleb_true. tauto.
Qed.

(** The selected quotients are the quotients of the selected
    coordinates. *)
Lemma In_to_bound (loc : list bool) (bound : vec) (v : R) :
  length loc = n -> length bound = n ->
  (In v (to_bound loc bound h start_point) <->
   exists i, (i < n)%nat /\ nth i loc false = true /\
             (nth i start_point 0 - nth i bound 0) / nth i h 0 = v).
Proof.
  intros Hloc Hb. unfold to_bound, vdiv, vsub.
  rewrite <- !select_map2.
  rewrite (In_select _ _ 0)
    by (rewrite !length_map2; lia).
  rewrite Hloc. split; intros (i & Hi & Hm & Hv); exists i;
    (split; [exact Hi|split; [exact Hm|]]).
  - rewrite (nth_map2 _ _ _ _ 0 0) in Hv
      by (rewrite ?length_map2; lia).
    rewrite (nth_map2 _ _ _ _ 0 0) in Hv by lia. exact Hv.
  - rewrite (nth_map2 _ _ _ _ 0 0) by (rewrite ?length_map2; lia).
    rewrite (nth_map2 _ _ _ _ 0 0) by lia. exact Hv.
Qed.

Lemma to_bound_nonempty (loc : list bool) (bound : vec) :
  length loc = n -> length bound = n -> any loc = true ->
  to_bound loc bound h start_point <> [].
Proof.
  intros Hloc Hb Hany E.
  apply any_true in Hany. destruct Hany as (i & Hi & Hm).
  assert (Hin : In ((nth i start_point 0 - nth i bound 0) / nth i h 0)
                   (to_bound loc bound h start_point)).
  { apply In_to_bound; try assumption.
    exists i. repeat split; [lia|assumption]. }
  rewrite E in Hin. exact Hin.
Qed.

(** The step length of the code is the least of the step lengths of
    the contract. *)
Lemma max_step_is_minimum :
  is_minimum
    (step_bound settings var_lower var_upper h start_point tr_radius)
    (max_step settings var_lower var_upper h start_point tr_radius).
Proof.
  unfold max_step.
  set (S := step_bound settings var_lower var_upper h start_point tr_radius).
  set (locl := loc_lower settings var_lower h start_point).
  set (locu := loc_upper settings var_upper h start_point).
  set (t0 := tr_radius / norm h).
  (* after the lower-bound test *)
  set (t1 := if any locl
             then py_min t0 (np_min (to_bound locl var_lower h start_point))
             else t0).
  assert (Hlen_l : length locl = n) by apply length_loc_lower.
  assert (Hlen_u : length locu = n) by apply length_loc_upper.
  assert (Hl_in : forall v, In v (to_bound locl var_lower h start_point) ->
                            S v).
  { intros v Hv. apply In_to_bound in Hv; try assumption.
    destruct Hv as (i & Hi & Hm & <-).
    apply nth_loc_lower in Hm; [|exact Hi].
    apply step_lower; [lia|tauto|tauto]. }
  assert (Hu_in : forall v, In v (to_bound locu var_upper h start_point) ->
                            S v).
  { intros v Hv. apply In_to_bound in Hv; try assumption.
    destruct Hv as (i & Hi & Hm & <-).
    apply nth_loc_upper in Hm; [|exact Hi].
    apply step_upper; [lia|tauto|tauto]. }
  assert (H1 : S t1 /\ t1 <= t0 /\
               forall i, (i < n)%nat -> nth i h 0 > 0 ->
                 nth i start_point 0 >= nth i var_lower 0 + min_dist settings ->
                 t1 <= (nth i start_point 0 - nth i var_lower 0) / nth i h 0).
  { subst t1. destruct (any locl) eqn:Hany.
    - destruct (np_min_spec (to_bound locl var_lower h start_point))
        as (Hin & Hmin).
      { now apply to_bound_nonempty. }
      rewrite py_min_Rmin.
      set (m := np_min (to_bound locl var_lower h start_point)) in *.
      assert (Hl := Rmin_l t0 m). assert (Hr := Rmin_r t0 m).
      split; [|split].
      + unfold Rmin. destruct (Rle_dec t0 m); [apply step_radius|auto].
      + exact Hl.
      + intros i Hi Hh Hx.
        apply Rle_trans with m; [exact Hr|].
        apply Hmin, In_to_bound; try assumption.
        exists i. split; [exact Hi|]. split; [|reflexivity].
        apply nth_loc_lower; tauto.
    - split; [apply step_radius|]. split; [lra|].
      intros i Hi Hh Hx. exfalso.
      assert (any locl = true); [|congruence].
      apply any_true. exists i. split; [lia|].
      apply nth_loc_lower; tauto. }
  destruct H1 as (HS1 & Hle1 & Hlow1).
  fold t1.
  set (t2 := if any locu
             then py_min t1 (np_min (to_bound locu var_upper h start_point))
             else t1).
  assert (H2 : S t2 /\ t2 <= t1 /\
               forall i, (i < n)%nat -> nth i h 0 < 0 ->
                 nth i start_point 0 <= nth i var_upper 0 - min_dist settings ->
                 t2 <= (nth i start_point 0 - nth i var_upper 0) / nth i h 0).
  { subst t2. destruct (any locu) eqn:Hany.
    - destruct (np_min_spec (to_bound locu var_upper h start_point))
        as (Hin & Hmin).
      { now apply to_bound_nonempty. }
      rewrite py_min_Rmin.
      set (m := np_min (to_bound locu var_upper h start_point)) in *.
      assert (Hl := Rmin_l t1 m). assert (Hr := Rmin_r t1 m).
      split; [|split].
      + unfold Rmin. destruct (Rle_dec t1 m); [exact HS1|auto].
      + exact Hl.
      + intros i Hi Hh Hx.
        apply Rle_trans with m; [exact Hr|].
        apply Hmin, In_to_bound; try assumption.
        exists i. split; [exact Hi|]. split; [|reflexivity].
        apply nth_loc_upper; tauto.
    - split; [exact HS1|]. split; [lra|].
      intros i Hi Hh Hx. exfalso.
      assert (any locu = true); [|congruence].
      apply any_true. exists i. split; [lia|].
      apply nth_loc_upper; tauto. }
  destruct H2 as (HS2 & Hle2 & Hup2).
  split; [exact HS2|].
  intros v Hv. destruct Hv as [|i Hi Hh Hx|i Hi Hh Hx].
  - fold t0. lra.
  - apply Rle_trans with t1; [exact Hle2|]. apply Hlow1; [lia|exact Hh|exact Hx].
  - apply Hup2; [lia|exact Hh|exact Hx].
Qed.

End CandidatePoint.

Lemma assert_length {A : Type} (u : list A) (n : nat) :
  length u = n -> assert (length u =? n)%nat = Ok tt.
Proof. intros ->. unfold assert. now rewrite Nat.eqb_refl. Qed.

(** On well-formed arguments with a non-zero gradient the call returns,
    and what it returns is built from [max_step]. *)
Lemma get_candidate_point_returns (settings : RbfoptSettings) (n k : nat)
    (var_lower var_upper h start_point : vec) (tr_radius : R) :
  length var_lower = n -> length var_upper = n ->
  length start_point = n -> length h = n ->
  norm h > 0 -> tr_radius >= 0 ->
  let t := max_step settings var_lower var_upper h start_point tr_radius in
  let candidate :=
    clip (vsub start_point (vscale t h)) var_lower var_upper in
  get_candidate_point settings n k var_lower var_upper h start_point tr_radius
    = Ok (candidate, dot h (vsub start_point candidate), norm h).
Proof.
  intros Hl Hu Hs Hh Hn Hr t candidate.
  unfold get_candidate_point.
  rewrite !assert_length by assumption.
  rewrite assert_radius by lra. cbn [bind].
  destruct (Req_dec_T (norm h) 0) as [E|_]; [lra|reflexivity].
Qed.

Lemma nth_step (t : R) (h start_point : vec) (i : nat) :
  length start_point = length h -> (i < length h)%nat ->
  nth i (vsub start_point (vscale t h)) 0
    = nth i start_point 0 - t * nth i h 0.
Proof.
  intros Hl Hi. unfold vsub, vscale.
  rewrite (nth_map2 _ _ _ _ 0 0) by (rewrite ?length_map; lia).
  now rewrite (nth_map_in _ _ _ 0) by lia.
Qed.

(** C1: the step length is the minimum of the radius-limited step and
    of the per-coordinate steps to the lower bound (positive gradient
    entry, start at least [min_dist] above the bound) and to the upper
    bound (negative entry, start at least [min_dist] below), and the
    candidate is the start moved by that step against the gradient,
    clamped coordinate by coordinate into the bounds. *)
Theorem get_candidate_point_step (settings : RbfoptSettings) (n k : nat)
    (var_lower var_upper h start_point : vec) (tr_radius : R) :
  length var_lower = n -> length var_upper = n ->
  length start_point = n -> length h = n ->
  norm h > 0 -> tr_radius >= 0 ->
  exists (t : R) (candidate : vec),
    is_minimum
      (step_bound settings var_lower var_upper h start_point tr_radius) t /\
    candidate = clip (vsub start_point (vscale t h)) var_lower var_upper /\
    length candidate = n /\
    (forall i, (i < n)%nat ->
       nth i candidate 0
         = Rmin (Rmax (nth i start_point 0 - t * nth i h 0)
                      (nth i var_lower 0))
                (nth i var_upper 0)) /\
    get_candidate_point settings n k var_lower var_upper h start_point
        tr_radius
      = Ok (candidate, dot h (vsub start_point candidate), norm h).
Proof.
  intros Hl Hu Hs Hh Hn Hr.
  exists (max_step settings var_lower var_upper h start_point tr_radius).
  eexists. split; [|split; [reflexivity|]].
  { now apply max_step_is_minimum with n. }
  set (t := max_step settings var_lower var_upper h start_point tr_radius).
  assert (Hlen : length (vsub start_point (vscale t h)) = n).
  { unfold vsub, vscale. rewrite length_map2, length_map. lia. }
  split; [now apply length_clip|]. split.
  - intros i Hi. rewrite nth_clip by congruence.
    rewrite nth_step by congruence. reflexivity.
  - now apply get_candidate_point_returns.
Qed.

Lemma norm_3_4 : norm [3; 4] = 5.
Proof.
  unfold norm, dot, map2. simpl.
  replace (3 * 3 + (4 * 4 + 0)) with (5 * 5) by lra.
  apply sqrt_square. lra.
Qed.

Lemma get_candidate_point_step_witness :
  norm [3; 4] > 0 /\ 1 >= 0 /\
  exists (t : R) (candidate : vec),
    is_minimum (step_bound sample_settings [0; 0] [10; 10] [3; 4] [5; 5] 1) t /\
    candidate = clip (vsub [5; 5] (vscale t [3; 4])) [0; 0] [10; 10] /\
    length candidate = 2%nat /\
    (forall i, (i < 2)%nat ->
       nth i candidate 0
         = Rmin (Rmax (nth i [5; 5] 0 - t * nth i [3; 4] 0)
                      (nth i [0; 0] 0))
                (nth i [10; 10] 0)) /\
    get_candidate_point sample_settings 2 10 [0; 0] [10; 10] [3; 4] [5; 5] 1
      = Ok (candidate, dot [3; 4] (vsub [5; 5] candidate), norm [3; 4]).
Proof.
  assert (Hn : norm [3; 4] > 0) by (rewrite norm_3_4; lra).
  assert (Hr : 1 >= 0) by lra.
  split; [exact Hn|]. split; [exact Hr|].
  exact (get_candidate_point_step sample_settings 2 10 [0; 0] [10; 10]
           [3; 4] [5; 5] 1 eq_refl eq_refl eq_refl eq_refl Hn Hr).
Defined.

(** *** Descent, radius and bounds *)

Lemma clip1_step (x lo hi t g : R) :
  lo <= x <= hi -> 0 <= t ->
  let c := clip1 (x - t * g) lo hi in
  lo <= c <= hi /\
  0 <= g * (x - c) /\
  (x - c) * (x - c) <= t * t * (g * g).
Proof.
  intros [Hlo Hhi] Ht c. subst c. unfold clip1, Rmin, Rmax.
  destruct (Rle_dec (x - t * g) lo) as [H1|H1].
  - destruct (Rle_dec lo hi) as [_|N]; [|lra].
    assert (Hd : 0 <= x - lo <= t * g) by lra.
    split; [lra|]. split; [|nra].
    destruct (Rle_dec 0 g) as [Hg|Hg]; [nra|].
    assert (t * g <= 0) by nra. assert (x - lo = 0) by lra. nra.
  - destruct (Rle_dec (x - t * g) hi) as [H2|H2].
    + split; [lra|]. split; [nra|].
      replace (x - (x - t * g)) with (t * g) by lra. nra.
    + assert (Hd : t * g <= x - hi <= 0) by lra.
      split; [lra|]. split; [|nra].
      destruct (Rle_dec g 0) as [Hg|Hg]; [nra|].
      assert (0 <= t * g) by nra. assert (x - hi = 0) by lra. nra.
Qed.

(** C7: from a start inside the bounds and with a positive radius, the
    candidate does not increase the model, stays within the radius and
    inside the bounds; the reported model difference is [h.(start -
    candidate)] and the reported gradient norm is [||h||]. *)
Theorem get_candidate_point_descent (settings : RbfoptSettings) (n k : nat)
    (var_lower var_upper h start_point : vec) (tr_radius : R) :
  length var_lower = n -> length var_upper = n ->
  length start_point = n -> length h = n ->
  norm h > 0 ->
  (forall i, (i < n)%nat ->
     nth i var_lower 0 <= nth i start_point 0 <= nth i var_upper 0) ->
  tr_radius > 0 ->
  exists (candidate : vec) (model_delta grad_norm : R),
    get_candidate_point settings n k var_lower var_upper h start_point
        tr_radius
      = Ok (candidate, model_delta, grad_norm) /\
    length candidate = n /\
    dot h start_point >= dot h candidate /\
    euclidean start_point candidate <= tr_radius /\
    (forall i, (i < n)%nat ->
       nth i var_lower 0 <= nth i candidate 0 <= nth i var_upper 0) /\
    model_delta = dot h (vsub start_point candidate) /\
    grad_norm = norm h.
Proof.
  intros Hl Hu Hs Hh Hn Hbox Hr.
  set (t := max_step settings var_lower var_upper h start_point tr_radius).
  set (candidate := clip (vsub start_point (vscale t h)) var_lower var_upper).
  exists candidate, (dot h (vsub start_point candidate)), (norm h).
  split; [apply get_candidate_point_returns; try assumption; lra|].
  destruct (max_step_is_minimum settings n var_lower var_upper h start_point
              tr_radius Hl Hu Hs Hh) as (HS & Hmin).
  fold t in HS, Hmin.
  assert (Ht0 : 0 <= t).
  { destruct HS as [|i Hi Hg Hx|i Hi Hg Hx].
    - apply Rlt_le, Rdiv_lt_0_compat; lra.
    - assert (Hb := Hbox i ltac:(lia)).
      apply Rle_mult_inv_pos; lra.
    - assert (Hb := Hbox i ltac:(lia)).
      replace ((nth i start_point 0 - nth i var_upper 0) / nth i h 0)
        with ((nth i var_upper 0 - nth i start_point 0) / (- nth i h 0)).
      + apply Rle_mult_inv_pos; lra.
      + field. lra. }
  assert (Htr : t * norm h <= tr_radius).
  { assert (Hle : t <= tr_radius / norm h) by apply Hmin, step_radius.
    apply Rmult_le_compat_r with (r := norm h) in Hle; [|lra].
    replace (tr_radius / norm h * norm h) with tr_radius in Hle
      by (field; lra).
    exact Hle. }
  assert (Hlen_step : length (vsub start_point (vscale t h)) = n).
  { unfold vsub, vscale. rewrite length_map2, length_map. lia. }
  assert (Hlen_c : length candidate = n) by now apply length_clip.
  assert (Hnth : forall i, (i < n)%nat ->
            nth i candidate 0
              = clip1 (nth i start_point 0 - t * nth i h 0)
                      (nth i var_lower 0) (nth i var_upper 0)).
  { intros i Hi. unfold candidate.
    rewrite nth_clip by congruence. now rewrite nth_step by congruence. }
  assert (Hco : forall i, (i < n)%nat ->
            nth i var_lower 0 <= nth i candidate 0 <= nth i var_upper 0 /\
            0 <= nth i h 0 * (nth i start_point 0 - nth i candidate 0) /\
            (nth i start_point 0 - nth i candidate 0)
              * (nth i start_point 0 - nth i candidate 0)
              <= t * t * (nth i h 0 * nth i h 0)).
  { intros i Hi. rewrite (Hnth i Hi).
    apply clip1_step; [now apply Hbox|exact Ht0]. }
  assert (Hlen_d : length (vsub start_point candidate) = n).
  { unfold vsub. rewrite length_map2. lia. }
  assert (Hnth_d : forall i, (i < n)%nat ->
            nth i (vsub start_point candidate) 0
              = nth i start_point 0 - nth i candidate 0).
  { intros i Hi. unfold vsub. apply nth_map2; lia. }
  split; [exact Hlen_c|]. split; [|split; [|split; [|split; reflexivity]]].
  - assert (Hd : 0 <= dot h (vsub start_point candidate)).
    { apply dot_nonneg. intros i Hi _.
      rewrite Hnth_d by lia. apply Hco. lia. }
    rewrite dot_vsub_r in Hd by congruence. lra.
  - unfold euclidean, norm.
    apply Rle_trans with (sqrt (t * t * dot h h)).
    + apply sqrt_le_1_alt, dot_self_le; [congruence|].
      intros i Hi. rewrite Hnth_d by lia. apply Hco. lia.
    + rewrite sqrt_mult_alt by nra. rewrite sqrt_square by exact Ht0.
      exact Htr.
  - intros i Hi. now apply Hco.
Qed.

Lemma box_0_10 (i : nat) :
  (i < 2)%nat -> nth i [0; 0] 0 <= nth i [5; 5] 0 <= nth i [10; 10] 0.
Proof.
  intros Hi. destruct i as [|[|i]]; simpl; try lra; lia.
Qed.

Lemma get_candidate_point_descent_witness :
  norm [3; 4] > 0 /\ 1 > 0 /\
  exists (candidate : vec) (model_delta grad_norm : R),
    get_candidate_point sample_settings 2 10 [0; 0] [10; 10] [3; 4] [5; 5] 1
      = Ok (candidate, model_delta, grad_norm) /\
    length candidate = 2%nat /\
    dot [3; 4] [5; 5] >= dot [3; 4] candidate /\
    euclidean [5; 5] candidate <= 1 /\
    (forall i, (i < 2)%nat ->
       nth i [0; 0] 0 <= nth i candidate 0 <= nth i [10; 10] 0) /\
    model_delta = dot [3; 4] (vsub [5; 5] candidate) /\
    grad_norm = norm [3; 4].
Proof.
  assert (Hn : norm [3; 4] > 0) by (rewrite norm_3_4; lra).
  assert (Hr : 1 > 0) by lra.
  split; [exact Hn|]. split; [exact Hr|].
  exact (get_candidate_point_descent sample_settings 2 10 [0; 0] [10; 10]
           [3; 4] [5; 5] 1 eq_refl eq_refl eq_refl eq_refl Hn box_0_10 Hr).
Defined.

(** A run: from (5, 5) against the gradient (3, 4) with radius 1 the
    step is 1/5, short of both lower-bound steps 5/3 and 5/4. *)
Example get_candidate_point_run :
  get_candidate_point sample_settings 2 10 [0; 0] [10; 10] [3; 4] [5; 5] 1
    = Ok ([22 / 5; 21 / 5], 5, 5).
Proof.
  unfold get_candidate_point. cbn [length Nat.eqb assert bind].
  rewrite assert_radius by lra. cbn [bind].
  rewrite norm_3_4.
  destruct (Req_dec_T 5 0) as [E|_]; [lra|].
  assert (Et : max_step sample_settings [0; 0] [10; 10] [3; 4] [5; 5] 1
               = 1 / 5).
  { unfold max_step. rewrite norm_3_4.
    unfold loc_lower, loc_upper, to_bound, vadd_scalar, vsub_scalar, map2,
      vdiv, vsub, map2, Rgtb, Rgeb, Rltb, Rleb, py_min, np_min, Rmin.
    Rdecide. lra. }
  rewrite Et.
  unfold clip, vsub, vscale, map2, clip1, dot, map2, Rmin, Rmax. simpl.
  Rdecide.
  replace (5 - 1 / 5 * 3) with (22 / 5) by lra.
  replace (5 - 1 / 5 * 4) with (21 / 5) by lra.
  do 3 f_equal. lra.
Qed.

(** ** [get_integer_candidate] *)

Lemma Rfloor_is_floor (x : R) : is_floor x (Rfloor x).
Proof.
  exists (Int_part x). split; [reflexivity|].
  destruct (base_Int_part x). lra.
Qed.

Lemma Rceil_is_ceil (x : R) : is_ceil x (Rceil x).
Proof.
  exists (- Int_part (- x))%Z. unfold Rceil. rewrite opp_IZR.
  split; [reflexivity|].
  destruct (base_Int_part (- x)). lra.
Qed.

Lemma index_in_range (n : nat) (i : Z) :
  (0 <= i < Z.of_nat n)%Z -> index n i = Ok (Z.to_nat i).
Proof.
  intros Hi. unfold index.
  destruct (0 <=? i)%Z eqn:E1; [|lia].
  destruct (i <? Z.of_nat n)%Z eqn:E2; [reflexivity|lia].
Qed.

Lemma take_in_range {A : Type} (d : A) (u : list A) (idx : list Z) :
  (forall i, In i idx -> (0 <= i < Z.of_nat (length u))%Z) ->
  take d u idx = Ok (map (fun i => nth (Z.to_nat i) u d) idx).
Proof.
  induction idx as [|i idx IH]; intros H; simpl; [reflexivity|].
  rewrite index_in_range by (apply H; now left).
  rewrite IH by (intros j Hj; apply H; now right).
  reflexivity.
Qed.

Lemma np_where_map {A B : Type} (c : A -> bool) (a b : A -> B) (l : list A) :
  np_where (map c l) (map a l) (map b l)
    = map (fun x => if c x then a x else b x) l.
Proof.
  induction l as [|x l IH]; simpl; [reflexivity|]. now rewrite IH.
Qed.

Lemma length_update {A : Type} (u : list A) (j : nat) (x : A) :
  length (update u j x) = length u.
Proof.
  revert j. induction u as [|y u IH]; intros [|j]; simpl; auto.
Qed.

Lemma nth_update_eq {A : Type} (u : list A) (j : nat) (x d : A) :
  (j < length u)%nat -> nth j (update u j x) d = x.
Proof.
  revert j. induction u as [|y u IH]; intros [|j]; simpl; intros H;
    try lia; [reflexivity|].
  apply IH. lia.
Qed.

Lemma nth_update_neq {A : Type} (u : list A) (j j' : nat) (x d : A) :
  j <> j' -> nth j' (update u j x) d = nth j' u d.
Proof.
  revert j j'. induction u as [|y u IH]; intros [|j] [|j']; simpl; intros H;
    try reflexivity; try lia.
  apply IH. lia.
Qed.

(** Assigning [g i] at every listed index [i]: listed coordinates hold
    their [g] value, the others are untouched. *)
Lemma put_in_range (g : Z -> R) (idx : list Z) (u : vec) :
  (forall i, In i idx -> (0 <= i < Z.of_nat (length u))%Z) ->
  exists r : vec,
    put u idx (map g idx) = Ok r /\
    length r = length u /\
    forall j, (j < length u)%nat ->
      (In (Z.of_nat j) idx -> nth j r 0 = g (Z.of_nat j)) /\
      (~ In (Z.of_nat j) idx -> nth j r 0 = nth j u 0).
Proof.
  revert u. induction idx as [|i idx IH]; intros u H.
  - exists u. simpl. repeat split; tauto.
  - simpl put.
    assert (Hi : (0 <= i < Z.of_nat (length u))%Z) by (apply H; now left).
    rewrite (index_in_range _ _ Hi). cbn [bind].
    destruct (IH (update u (Z.to_nat i) (g i))) as (r & Er & Hlen & Hr).
    { intros i' Hi'. rewrite length_update. apply H. now right. }
    rewrite length_update in Hlen, Hr.
    exists r. split; [exact Er|]. split; [exact Hlen|].
    intros j Hj. destruct (Hr j Hj) as (Hin & Hout).
    destruct (in_dec Z.eq_dec (Z.of_nat j) idx) as [Hd|Hd].
    + split; [intros _; now apply Hin|].
      intros N. exfalso. apply N. now right.
    + split.
      * intros [E|Hin']; [|contradiction].
        rewrite (Hout Hd). subst i. rewrite Nat2Z.id.
        apply nth_update_eq. exact Hj.
      * intros N. rewrite (Hout Hd).
        apply nth_update_neq. intros E. apply N. left. lia.
Qed.

(** On well-formed arguments the call returns; every listed coordinate
    is [round_at], every other one is the coordinate of [point]. *)
Lemma get_integer_candidate_returns (settings : RbfoptSettings) (n k : nat)
    (h point : vec) (integer_vars : list Z) :
  length point = n -> length h = n ->
  (forall i, In i integer_vars -> (0 <= i < Z.of_nat n)%Z) ->
  exists rounded : vec,
    get_integer_candidate settings n k h point integer_vars
      = Ok (rounded, dot h (vsub point rounded)) /\
    length rounded = n /\
    forall j, (j < n)%nat ->
      (In (Z.of_nat j) integer_vars -> nth j rounded 0 = round_at h point j) /\
      (~ In (Z.of_nat j) integer_vars -> nth j rounded 0 = nth j point 0).
Proof.
  intros Hp Hh Hidx. unfold get_integer_candidate.
  rewrite !assert_length by assumption. cbn [bind].
  rewrite !take_in_range by (intros i Hi; rewrite ?Hp, ?Hh; now apply Hidx).
  cbn [bind]. rewrite !map_map.
  rewrite (np_where_map (fun i => Rgeb (nth (Z.to_nat i) h 0) 0)
             (fun i => Rfloor (nth (Z.to_nat i) point 0))
             (fun i => Rceil (nth (Z.to_nat i) point 0))).
  destruct (put_in_range
              (fun i => if Rgeb (nth (Z.to_nat i) h 0) 0
                        then Rfloor (nth (Z.to_nat i) point 0)
                        else Rceil (nth (Z.to_nat i) point 0))
              integer_vars point)
    as (r & Er & Hlen & Hr).
  { intros i Hi. rewrite Hp. now apply Hidx. }
  rewrite Er. cbn [bind]. exists r.
  split; [reflexivity|]. split; [congruence|].
  intros j Hj. rewrite Hp in Hr. destruct (Hr j Hj) as (Hin & Hout).
  split; [|exact Hout].
  intros Hj'. rewrite (Hin Hj'), Nat2Z.id. reflexivity.
Qed.

(** C8: every coordinate listed in [integer_vars] is the floor of the
    point's coordinate when the gradient entry is non-negative and its
    ceiling when the entry is negative; every other coordinate is the
    point's own; the model difference is [h.(point - rounded)]. *)
Theorem get_integer_candidate_rounds (settings : RbfoptSettings) (n k : nat)
    (h point : vec) (integer_vars : list Z) :
  length point = n -> length h = n ->
  (forall i, In i integer_vars -> (0 <= i < Z.of_nat n)%Z) ->
  exists (rounded : vec) (model_delta : R),
    get_integer_candidate settings n k h point integer_vars
      = Ok (rounded, model_delta) /\
    length rounded = n /\
    (forall j, (j < n)%nat -> In (Z.of_nat j) integer_vars ->
       (nth j h 0 >= 0 ->
          nth j rounded 0 = Rfloor (nth j point 0) /\
          is_floor (nth j point 0) (nth j rounded 0)) /\
       (nth j h 0 < 0 ->
          nth j rounded 0 = Rceil (nth j point 0) /\
          is_ceil (nth j point 0) (nth j rounded 0))) /\
    (forall j, (j < n)%nat -> ~ In (Z.of_nat j) integer_vars ->
       nth j rounded 0 = nth j point 0) /\
    model_delta = dot h (vsub point rounded).
Proof.
  intros Hp Hh Hidx.
  destruct (get_integer_candidate_returns settings n k h point integer_vars
              Hp Hh Hidx) as (r & Er & Hlen & Hr).
  exists r, (dot h (vsub point r)).
  split; [exact Er|]. split; [exact Hlen|].
  split; [|split; [|reflexivity]].
  - intros j Hj Hin. destruct (Hr j Hj) as (Hround & _).
    rewrite (Hround Hin). unfold round_at. split; intros Hg.
    + apply Rgeb_true in Hg. rewrite Hg.
      split; [reflexivity|apply Rfloor_is_floor].
    + assert (E : Rgeb (nth j h 0) 0 = false) by (apply Rgeb_false; lra).
      rewrite E. split; [reflexivity|apply Rceil_is_ceil].
  - intros j Hj Hout. now apply (Hr j Hj).
Qed.

(** C10: the model difference of the rounded point is never negative. *)
Theorem get_integer_candidate_delta_nonneg (settings : RbfoptSettings)
    (n k : nat) (h point : vec) (integer_vars : list Z) :
  length point = n -> length h = n ->
  (forall i, In i integer_vars -> (0 <= i < Z.of_nat n)%Z) ->
  exists (rounded : vec) (model_delta : R),
    get_integer_candidate settings n k h point integer_vars
      = Ok (rounded, model_delta) /\
    model_delta = dot h (vsub point rounded) /\
    model_delta >= 0.
Proof.
  intros Hp Hh Hidx.
  destruct (get_integer_candidate_returns settings n k h point integer_vars
              Hp Hh Hidx) as (r & Er & Hlen & Hr).
  exists r, (dot h (vsub point r)).
  split; [exact Er|]. split; [reflexivity|].
  apply Rle_ge, dot_nonneg. intros j Hj _.
  assert (Hjn : (j < n)%nat) by lia.
  unfold vsub. rewrite (nth_map2 _ _ _ _ 0 0) by lia.
  destruct (Hr j Hjn) as (Hin & Hout).
  destruct (in_dec Z.eq_dec (Z.of_nat j) integer_vars) as [Hd|Hd].
  - rewrite (Hin Hd). unfold round_at.
    destruct (Rgeb (nth j h 0) 0) eqn:E.
    + apply Rgeb_true in E.
      destruct (Rfloor_is_floor (nth j point 0)) as (z & -> & Hz). nra.
    + apply Rgeb_false in E.
      destruct (Rceil_is_ceil (nth j point 0)) as (z & -> & Hz). nra.
  - rewrite (Hout Hd). nra.
Qed.

Lemma Rfloor_eq (z : Z) (x : R) : IZR z <= x < IZR z + 1 -> Rfloor x = IZR z.
Proof.
  intros H. unfold Rfloor. f_equal. symmetry. apply Int_part_spec. lra.
Qed.

Lemma Rceil_eq (z : Z) (x : R) : IZR z - 1 < x <= IZR z -> Rceil x = IZR z.
Proof.
  intros H. unfold Rceil.
  rewrite <- (Int_part_spec (- x) (- z)%Z); rewrite opp_IZR; lra.
Qed.

Lemma integer_vars_0_1 (i : Z) :
  In i [0; 1]%Z -> (0 <= i < Z.of_nat 3)%Z.
Proof. simpl. intros [<-|[<-|[]]]; lia. Qed.

Lemma get_integer_candidate_rounds_witness :
  exists (rounded : vec) (model_delta : R),
    get_integer_candidate sample_settings 3 10 [1; -1; 2]
        [3 / 2; 5 / 2; 37 / 10] [0; 1]%Z
      = Ok (rounded, model_delta) /\
    length rounded = 3%nat /\
    (forall j, (j < 3)%nat -> In (Z.of_nat j) [0; 1]%Z ->
       (nth j [1; -1; 2] 0 >= 0 ->
          nth j rounded 0 = Rfloor (nth j [3 / 2; 5 / 2; 37 / 10] 0) /\
          is_floor (nth j [3 / 2; 5 / 2; 37 / 10] 0) (nth j rounded 0)) /\
       (nth j [1; -1; 2] 0 < 0 ->
          nth j rounded 0 = Rceil (nth j [3 / 2; 5 / 2; 37 / 10] 0) /\
          is_ceil (nth j [3 / 2; 5 / 2; 37 / 10] 0) (nth j rounded 0))) /\
    (forall j, (j < 3)%nat -> ~ In (Z.of_nat j) [0; 1]%Z ->
       nth j rounded 0 = nth j [3 / 2; 5 / 2; 37 / 10] 0) /\
    model_delta = dot [1; -1; 2] (vsub [3 / 2; 5 / 2; 37 / 10] rounded).
Proof.
  exact (get_integer_candidate_rounds sample_settings 3 10 [1; -1; 2]
           [3 / 2; 5 / 2; 37 / 10] [0; 1]%Z eq_refl eq_refl integer_vars_0_1).
Defined.

Lemma get_integer_candidate_delta_nonneg_witness :
  exists (rounded : vec) (model_delta : R),
    get_integer_candidate sample_settings 3 10 [1; -1; 2]
        [3 / 2; 5 / 2; 37 / 10] [0; 1]%Z
      = Ok (rounded, model_delta) /\
    model_delta = dot [1; -1; 2] (vsub [3 / 2; 5 / 2; 37 / 10] rounded) /\
    model_delta >= 0.
Proof.
  exact (get_integer_candidate_delta_nonneg sample_settings 3 10 [1; -1; 2]
           [3 / 2; 5 / 2; 37 / 10] [0; 1]%Z eq_refl eq_refl integer_vars_0_1).
Defined.

(** A run: 3/2 goes down to 1 (gradient entry 1), 5/2 goes up to 3
    (entry -1), 37/10 is not an integer variable; the model difference
    is 1 * 1/2 + (-1) * (-1/2) = 1. *)
Example get_integer_candidate_run :
  get_integer_candidate sample_settings 3 10 [1; -1; 2]
      [3 / 2; 5 / 2; 37 / 10] [0; 1]%Z
    = Ok ([1; 3; 37 / 10], 1).
Proof.
  unfold get_integer_candidate. cbn [length Nat.eqb assert bind].
  simpl take. cbn [bind]. unfold Rgeb, Rleb.
  Rdecide.
  rewrite (Rfloor_eq 1) by lra. rewrite (Rceil_eq 3) by lra.
  simpl. unfold dot, vsub, map2. simpl.
  do 2 f_equal. lra.
Qed.

(** ** The stable sort *)

Section StableSort.

Variable key : nat -> R.

Lemma In_insert_by (i x : nat) (l : list nat) :
  In x (insert_by key i l) <-> x = i \/ In x l.
Proof.
  induction l as [|j l IH]; simpl.
  - intuition.
  - destruct (Rle_dec (key i) (key j)); simpl; [intuition|].
    rewrite IH. intuition.
Qed.

Lemma insert_by_Permutation (i : nat) (l : list nat) :
  Permutation (insert_by key i l) (i :: l).
Proof.
  induction l as [|j l IH]; simpl; [reflexivity|].
  destruct (Rle_dec (key i) (key j)); [reflexivity|].
  rewrite IH. apply perm_swap.
Qed.

Lemma closer_key_le (i j : nat) : closer key i j -> key i <= key j.
Proof. intros [H|[H _]]; lra. Qed.

(** Inserting an index smaller than all those present keeps the list
    in the order of the contract. *)
Lemma insert_by_sorted (i : nat) (l : list nat) :
  StronglySorted (closer key) l ->
  Forall (fun j => (i < j)%nat) l ->
  StronglySorted (closer key) (insert_by key i l).
Proof.
  induction l as [|j l IH]; intros Hs Hlt; simpl.
  - constructor; constructor.
  - inversion Hs as [|? ? Hs' Hj]; subst.
    inversion Hlt as [|? ? Hij Hlt']; subst.
    destruct (Rle_dec (key i) (key j)) as [Hle|Hgt].
    + constructor; [exact Hs|].
      constructor.
      * destruct (Rle_lt_or_eq_dec _ _ Hle) as [H|H];
          [now left|right; split; assumption].
      * rewrite Forall_forall in *. intros m Hm.
        assert (Hjm := closer_key_le _ _ (Hj m Hm)).
        assert (Him := Hlt' m Hm).
        destruct (Rle_lt_or_eq_dec (key i) (key m) ltac:(lra)) as [H|H];
          [now left|right; split; assumption].
    + constructor; [now apply IH|].
      rewrite Forall_forall in *. intros m Hm.
      apply In_insert_by in Hm. destruct Hm as [->|Hm].
      * left. lra.
      * now apply Hj.
Qed.

Lemma sort_by_Permutation (l : list nat) : Permutation (sort_by key l) l.
Proof.
  induction l as [|i l IH]; simpl; [reflexivity|].
  rewrite insert_by_Permutation. now constructor.
Qed.

Lemma sort_by_sorted (l : list nat) :
  StronglySorted lt l -> StronglySorted (closer key) (sort_by key l).
Proof.
  induction l as [|i l IH]; intros Hs; simpl.
  - constructor.
  - inversion Hs as [|? ? Hs' Hi]; subst.
    apply insert_by_sorted; [now apply IH|].
    rewrite Forall_forall in *. intros j Hj.
    apply Hi. now apply (Permutation_in _ (sort_by_Permutation l)).
Qed.

End StableSort.

Lemma sort_by_ext (key key' : nat -> R) (l : list nat) :
  (forall i, key i = key' i) -> sort_by key l = sort_by key' l.
Proof.
  intros E. induction l as [|i l IH]; simpl; [reflexivity|].
  rewrite IH. generalize (sort_by key' l). intros s.
  induction s as [|j s IHs]; simpl; [reflexivity|].
  rewrite !E, IHs. reflexivity.
Qed.

Lemma seq_sorted (a k : nat) : StronglySorted lt (seq a k).
Proof.
  revert a. induction k as [|k IH]; intros a; simpl; constructor.
  - apply IH.
  - rewrite Forall_forall. intros j Hj. apply in_seq in Hj. lia.
Qed.

Lemma In_firstn {A : Type} (m : nat) (l : list A) (x : A) :
  In x (firstn m l) -> In x l.
Proof.
  intros H. rewrite <- (firstn_skipn m l). apply in_or_app. now left.
Qed.

Lemma firstn_sorted {A : Type} (R : A -> A -> Prop) (m : nat) (l : list A) :
  StronglySorted R l -> StronglySorted R (firstn m l).
Proof.
  revert m. induction l as [|x l IH]; intros [|m] Hs; simpl;
    try constructor.
  - inversion Hs; subst. now apply IH.
  - inversion Hs as [|? ? _ Hx]; subst.
    rewrite Forall_forall in *. intros y Hy.
    apply Hx. eapply In_firstn. exact Hy.
Qed.

Lemma sorted_app_cross {A : Type} (R : A -> A -> Prop) (l1 l2 : list A) :
  StronglySorted R (l1 ++ l2) ->
  forall x y, In x l1 -> In y l2 -> R x y.
Proof.
  induction l1 as [|a l1 IH]; intros Hs x y Hx Hy; [easy|].
  simpl in Hs. inversion Hs as [|? ? Hs' Ha]; subst.
  destruct Hx as [->|Hx].
  - rewrite Forall_forall in Ha. apply Ha, in_or_app. now right.
  - now apply IH.
Qed.

Lemma sorted_NoDup (key : nat -> R) (l : list nat) :
  StronglySorted (closer key) l -> NoDup l.
Proof.
  induction 1 as [|i l Hs IH Hi]; constructor; [|exact IH].
  intros Hin. rewrite Forall_forall in Hi.
  destruct (Hi i Hin) as [H|[_ H]]; [lra|lia].
Qed.

(** ** Sorting a sorted sample *)

Lemma sort_val_sorted (l : vec) : StronglySorted Rle l -> sort_val l = l.
Proof.
  induction 1 as [|x l Hs IH Hx]; simpl; [reflexivity|].
  rewrite IH. destruct l as [|y l]; simpl; [reflexivity|].
  inversion Hx; subst.
  destruct (Rle_dec x y); [reflexivity|contradiction].
Qed.

Lemma map_key_sorted (key : nat -> R) (l : list nat) :
  StronglySorted (closer key) l -> StronglySorted Rle (map key l).
Proof.
  induction 1 as [|i l Hs IH Hi]; simpl; constructor; [exact IH|].
  rewrite Forall_forall in *. intros x Hx.
  apply in_map_iff in Hx. destruct Hx as (j & <- & Hj).
  now apply closer_key_le, Hi.
Qed.

Lemma tl_sorted {A : Type} (R : A -> A -> Prop) (l : list A) :
  StronglySorted R l -> StronglySorted R (tl l).
Proof. destruct 1; simpl; [constructor|assumption]. Qed.

(** ** [init_trust_region] *)

Lemma euclidean_nil_r (center : vec) : euclidean center [] = 0.
Proof.
  unfold euclidean, norm, vsub, map2. rewrite combine_nil.
  unfold dot, map2. simpl. apply sqrt_0.
Qed.

Lemma nth_cdist (center : vec) (node_pos : list vec) (i : nat) :
  nth i (map (euclidean center) node_pos) 0
    = euclidean center (nth i node_pos []).
Proof.
  rewrite <- (euclidean_nil_r center) at 1. apply map_nth.
Qed.

Lemma euclidean_nonneg (u v : vec) : 0 <= euclidean u v.
Proof. unfold euclidean, norm. apply sqrt_pos. Qed.

Lemma cdist_row_returns (center : vec) (node_pos : list vec) :
  (forall p, In p node_pos -> length p = length center) ->
  cdist_row center node_pos = Ok (map (euclidean center) node_pos).
Proof.
  intros H. unfold cdist_row.
  replace (forallb _ node_pos) with true; [reflexivity|].
  symmetry. apply forallb_forall. intros p Hp.
  apply Nat.eqb_eq. now apply H.
Qed.

Lemma quarter_in_range : Rleb 0 0.25 && Rleb 0.25 100 = true.
Proof. apply andb_true_iff. split; apply Rleb_true; lra. Qed.

(** On well-formed arguments the call returns the first
    [min(2n + 1, k)] indices of the stable sort by distance, and the
    radius interpolates the distances of all of them but the first. *)
Lemma init_trust_region_returns (settings : RbfoptSettings) (n k : nat)
    (node_pos : list vec) (center : vec) :
  (1 <= n)%nat -> (2 <= k)%nat ->
  length node_pos = k ->
  (forall p, In p node_pos -> length p = n) ->
  length center = n ->
  let dist := fun i => euclidean center (nth i node_pos []) in
  let model_set := firstn (Nat.min (2 * n + 1) k) (sort_by dist (seq 0 k)) in
  init_trust_region settings n k node_pos center
    = Ok (model_set,
          Rmax (interpolate (map dist (tl model_set)) 0.25)
               (min_tr_radius settings * 16)).
Proof.
  intros Hn Hk Hlen Hrows Hc dist model_set.
  unfold init_trust_region.
  rewrite !assert_length by assumption.
  replace (2 <=? k)%nat with true by (symmetry; now apply Nat.leb_le).
  cbn [assert bind].
  rewrite cdist_row_returns by (intros p Hp; rewrite Hc; now apply Hrows).
  cbn [bind].
  assert (Hsort : lexsort (map (euclidean center) node_pos)
                  = sort_by dist (seq 0 k)).
  { unfold lexsort. rewrite length_map, Hlen.
    apply sort_by_ext. intros i. apply nth_cdist. }
  rewrite Hsort. fold model_set.
  assert (Hsample : map (fun i => nth i (map (euclidean center) node_pos) 0)
                        (tl model_set)
                    = map dist (tl model_set)).
  { apply map_ext. intros i. apply nth_cdist. }
  rewrite Hsample.
  assert (Hms : length model_set = Nat.min (2 * n + 1) k).
  { unfold model_set. rewrite length_firstn.
    rewrite (Permutation_length (sort_by_Permutation _ _)), length_seq. lia. }
  assert (Hsorted : StronglySorted Rle (map dist (tl model_set))).
  { apply map_key_sorted, tl_sorted. unfold model_set.
    apply firstn_sorted, sort_by_sorted, seq_sorted. }
  unfold np_percentile. rewrite quarter_in_range.
  destruct (map dist (tl model_set)) as [|x s] eqn:Es.
  - exfalso. apply (f_equal (@length R)) in Es.
    rewrite length_map in Es. simpl in Es.
    destruct model_set as [|i [|j ms]]; simpl in *; lia.
  - cbn [bind]. rewrite (sort_val_sorted _ Hsorted), py_max_Rmax.
    do 3 f_equal. simpl. lra.
Qed.

(** C3: the model set has [min(2n + 1, k)] entries; they are node
    indices, listed by ascending distance to the center with equal
    distances in source order, and every node left out comes after
    every node kept in that order. *)
Theorem init_trust_region_model_set (settings : RbfoptSettings) (n k : nat)
    (node_pos : list vec) (center : vec) :
  (1 <= n)%nat -> (2 <= k)%nat ->
  length node_pos = k ->
  (forall p, In p node_pos -> length p = n) ->
  length center = n ->
  let dist := fun i => euclidean center (nth i node_pos []) in
  exists (model_set : list nat) (tr_radius : R),
    init_trust_region settings n k node_pos center
      = Ok (model_set, tr_radius) /\
    length model_set = Nat.min (2 * n + 1) k /\
    NoDup model_set /\
    (forall i, In i model_set -> (i < k)%nat) /\
    StronglySorted (closer dist) model_set /\
    (forall i j, In i model_set -> (j < k)%nat -> ~ In j model_set ->
                 closer dist i j).
Proof.
  intros Hn Hk Hlen Hrows Hc dist.
  eexists; eexists. split.
  { now apply init_trust_region_returns. }
  fold dist.
  set (order := sort_by dist (seq 0 k)).
  set (m := Nat.min (2 * n + 1) k).
  assert (Hperm : Permutation order (seq 0 k)) by apply sort_by_Permutation.
  assert (Hord : StronglySorted (closer dist) order)
    by apply sort_by_sorted, seq_sorted.
  assert (Hkeep : StronglySorted (closer dist) (firstn m order))
    by now apply firstn_sorted.
  split; [|split; [|split; [|split]]].
  - rewrite length_firstn, (Permutation_length Hperm), length_seq.
    unfold m. lia.
  - now apply sorted_NoDup with dist.
  - intros i Hi. apply In_firstn in Hi.
    apply (Permutation_in _ Hperm), in_seq in Hi. lia.
  - exact Hkeep.
  - intros i j Hi Hj Hout.
    apply (sorted_app_cross (closer dist) (firstn m order) (skipn m order)).
    + now rewrite firstn_skipn.
    + exact Hi.
    + assert (Hin : In j order).
      { apply (Permutation_in _ (Permutation_sym Hperm)), in_seq. lia. }
      rewrite <- (firstn_skipn m order) in Hin.
      apply in_app_or in Hin. tauto.
Qed.

Lemma rows_0_1_3 (p : vec) : In p [[0]; [1]; [3]] -> length p = 1%nat.
Proof. simpl. intros [<-|[<-|[<-|[]]]]; reflexivity. Qed.

Lemma init_trust_region_model_set_witness :
  (1 <= 1)%nat /\ (2 <= 3)%nat /\
  let dist := fun i => euclidean [0] (nth i [[0]; [1]; [3]] []) in
  exists (model_set : list nat) (tr_radius : R),
    init_trust_region sample_settings 1 3 [[0]; [1]; [3]] [0]
      = Ok (model_set, tr_radius) /\
    length model_set = Nat.min (2 * 1 + 1) 3 /\
    NoDup model_set /\
    (forall i, In i model_set -> (i < 3)%nat) /\
    StronglySorted (closer dist) model_set /\
    (forall i j, In i model_set -> (j < 3)%nat -> ~ In j model_set ->
                 closer dist i j).
Proof.
  assert (H1 : (1 <= 1)%nat) by lia.
  assert (H2 : (2 <= 3)%nat) by lia.
  split; [exact H1|]. split; [exact H2|].
  exact (init_trust_region_model_set sample_settings 1 3 [[0]; [1]; [3]] [0]
           H1 H2 eq_refl rows_0_1_3 eq_refl).
Defined.

(** *** The radius *)

Lemma Int_part_unit (x : R) : 0 <= x < 1 -> Int_part x = 0%Z.
Proof. intros H. symmetry. apply Int_part_spec. simpl. lra. Qed.

(** Below 401 entries the 0.25th percentile lies between the two
    smallest. *)
Lemma interpolate_quarter (s : vec) :
  (length s <= 400)%nat ->
  interpolate s 0.25
    = nth 0 s 0 + (nth 1 s 0 - nth 0 s 0) * (INR (length s - 1) / 400).
Proof.
  intros Hlen. unfold interpolate.
  assert (Hm : 0 <= INR (length s - 1) <= 399).
  { split; [apply pos_INR|].
    replace 399 with (INR 399) by (rewrite INR_IZR_INZ; reflexivity).
    apply le_INR. lia. }
  rewrite Int_part_unit by lra.
  change (Z.to_nat 0) with 0%nat. cbn [Nat.add INR].
  destruct (length s - 1)%nat as [|m] eqn:E.
  - cbn [Nat.min INR]. lra.
  - replace (Nat.min 1 (S m)) with 1%nat by lia. lra.
Qed.

Lemma interpolate_pair (a b q : R) :
  0 <= q < 100 -> interpolate [a; b] q = a + (b - a) * (q / 100).
Proof.
  intros Hq. unfold interpolate. cbn [length Nat.sub INR].
  rewrite Int_part_unit by lra.
  change (Z.to_nat 0) with 0%nat. cbn [Nat.add Nat.min nth INR]. lra.
Qed.

(** C4, as the code has it: the radius is the larger of
    [min_tr_radius * 16] and the 0.25th percentile (numpy's scale runs
    from 0 to 100) of the distances from the center to the selected
    nodes other than the closest.  Those distances are already in
    ascending order, and with at most 400 of them the percentile is the
    smallest plus [(len - 1) / 400] of the gap to the next one. *)
Theorem init_trust_region_radius (settings : RbfoptSettings) (n k : nat)
    (node_pos : list vec) (center : vec) :
  (1 <= n)%nat -> (2 <= k)%nat ->
  length node_pos = k ->
  (forall p, In p node_pos -> length p = n) ->
  length center = n ->
  let dist := fun i => euclidean center (nth i node_pos []) in
  exists (model_set : list nat) (tr_radius : R),
    init_trust_region settings n k node_pos center
      = Ok (model_set, tr_radius) /\
    let sample := map dist (tl model_set) in
    length sample = (Nat.min (2 * n + 1) k - 1)%nat /\
    StronglySorted Rle sample /\
    tr_radius = Rmax (interpolate sample 0.25) (min_tr_radius settings * 16) /\
    ((length sample <= 400)%nat ->
       tr_radius
         = Rmax (nth 0 sample 0
                 + (nth 1 sample 0 - nth 0 sample 0)
                   * (INR (length sample - 1) / 400))
                (min_tr_radius settings * 16)).
Proof.
  intros Hn Hk Hlen Hrows Hc dist.
  eexists; eexists. split.
  { now apply init_trust_region_returns. }
  fold dist.
  set (model_set := firstn (Nat.min (2 * n + 1) k) (sort_by dist (seq 0 k))).
  intros sample.
  split; [|split; [|split]].
  - unfold sample, model_set.
    rewrite length_map.
    assert (Hl : length (firstn (Nat.min (2 * n + 1) k)
                           (sort_by dist (seq 0 k)))
                 = Nat.min (2 * n + 1) k).
    { rewrite length_firstn,
        (Permutation_length (sort_by_Permutation _ _)), length_seq. lia. }
    destruct (firstn _ _); simpl in *; lia.
  - apply map_key_sorted, tl_sorted, firstn_sorted, sort_by_sorted,
      seq_sorted.
  - reflexivity.
  - intros Hs. now rewrite interpolate_quarter.
Qed.

(** *** A run on three nodes of the line *)

Lemma euclidean_line (c x : R) : c <= x -> euclidean [c] [x] = x - c.
Proof.
  intros H. unfold euclidean, norm, vsub, dot, map2. simpl.
  replace ((c - x) * (c - x) + 0) with ((x - c) * (x - c)) by lra.
  apply sqrt_square. lra.
Qed.

Lemma dist_0_1_3 (i : nat) :
  euclidean [0] (nth i [[0]; [1]; [3]] []) = nth i [0; 1; 3] 0.
Proof.
  destruct i as [|[|[|i]]]; simpl.
  - rewrite euclidean_line; lra.
  - rewrite euclidean_line; lra.
  - rewrite euclidean_line; lra.
  - destruct i; apply euclidean_nil_r.
Qed.

(** Nodes at 0, 1 and 3 around the center 0: all three are kept, in
    source order, and the radius is 1 + 2 * 0.0025. *)
Lemma init_trust_region_run :
  init_trust_region sample_settings 1 3 [[0]; [1]; [3]] [0]
    = Ok ([0; 1; 2]%nat, 201 / 200).
Proof.
  rewrite init_trust_region_returns;
    [|lia|lia|reflexivity|exact rows_0_1_3|reflexivity].
  rewrite (sort_by_ext _ (fun i => nth i [0; 1; 3] 0)) by exact dist_0_1_3.
  assert (Es : sort_by (fun i => nth i [0; 1; 3] 0) (seq 0 3)
               = [0; 1; 2]%nat).
  { unfold sort_by. Rdecide. reflexivity. }
  rewrite Es. cbn [Nat.min Nat.mul Nat.add firstn tl].
  rewrite (map_ext _ (fun i => nth i [0; 1; 3] 0)) by exact dist_0_1_3.
  cbn [map nth]. rewrite interpolate_pair by lra.
  f_equal. f_equal. unfold Rmax. Rdecide. lra.
Qed.

Lemma init_trust_region_radius_witness :
  (1 <= 1)%nat /\ (2 <= 3)%nat /\
  let dist := fun i => euclidean [0] (nth i [[0]; [1]; [3]] []) in
  exists (model_set : list nat) (tr_radius : R),
    init_trust_region sample_settings 1 3 [[0]; [1]; [3]] [0]
      = Ok (model_set, tr_radius) /\
    let sample := map dist (tl model_set) in
    length sample = (Nat.min (2 * 1 + 1) 3 - 1)%nat /\
    StronglySorted Rle sample /\
    tr_radius
      = Rmax (interpolate sample 0.25) (min_tr_radius sample_settings * 16) /\
    ((length sample <= 400)%nat ->
       tr_radius
         = Rmax (nth 0 sample 0
                 + (nth 1 sample 0 - nth 0 sample 0)
                   * (INR (length sample - 1) / 400))
                (min_tr_radius sample_settings * 16)).
Proof.
  assert (H1 : (1 <= 1)%nat) by lia.
  assert (H2 : (2 <= 3)%nat) by lia.
  split; [exact H1|]. split; [exact H2|].
  exact (init_trust_region_radius sample_settings 1 3 [[0]; [1]; [3]] [0]
           H1 H2 eq_refl rows_0_1_3 eq_refl).
Defined.

(** The radius of the run is not the 25th percentile of the distances
    1 and 3 (which is 3/2, well above [min_tr_radius * 16]): the claim
    of C4 fails on this input. *)
Lemma init_trust_region_not_25th_percentile :
  exists (model_set : list nat) (tr_radius : R),
    init_trust_region sample_settings 1 3 [[0]; [1]; [3]] [0]
      = Ok (model_set, tr_radius) /\
    let dist := fun i => euclidean [0] (nth i [[0]; [1]; [3]] []) in
    let sample := map dist (tl model_set) in
    sample = [1; 3] /\
    np_percentile sample 25 = Ok (3 / 2) /\
    tr_radius <> Rmax (3 / 2) (min_tr_radius sample_settings * 16).
Proof.
  exists [0; 1; 2]%nat, (201 / 200).
  split; [exact init_trust_region_run|].
  cbn [tl map]. rewrite !dist_0_1_3. cbn [nth].
  split; [reflexivity|]. split.
  - unfold np_percentile.
    replace (Rleb 0 25 && Rleb 25 100) with true
      by (symmetry; apply andb_true_iff; split; apply Rleb_true; lra).
    rewrite sort_val_sorted.
    + rewrite interpolate_pair by lra. f_equal. lra.
    + repeat constructor. lra.
  - unfold Rmax. Rdecide. lra.
Qed.

(** ** The radius invariant *)

Lemma bind_Ok {A B : Type} (m : outcome A) (f : A -> outcome B) (b : B) :
  bind m f = Ok b -> exists a, m = Ok a /\ f a = Ok b.
Proof.
  destruct m as [a| |]; simpl; intros H; try discriminate. now exists a.
Qed.

Lemma In_insert_val (x y : R) (l : vec) :
  In y (insert_val x l) <-> y = x \/ In y l.
Proof.
  induction l as [|z l IH]; simpl.
  - intuition.
  - destruct (Rle_dec x z); simpl; [intuition|].
    rewrite IH. intuition.
Qed.

Lemma In_sort_val (y : R) (l : vec) : In y (sort_val l) <-> In y l.
Proof.
  induction l as [|x l IH]; simpl; [tauto|].
  rewrite In_insert_val, IH. intuition.
Qed.

Lemma nth_nonneg (s : vec) (i : nat) :
  (forall x, In x s -> 0 <= x) -> 0 <= nth i s 0.
Proof.
  intros H. destruct (Nat.lt_ge_cases i (length s)) as [Hi|Hi].
  - apply H. now apply nth_In.
  - rewrite nth_overflow by exact Hi. lra.
Qed.

(** An interpolation of non-negative values is non-negative. *)
Lemma interpolate_nonneg (s : vec) (q : R) :
  0 <= q -> (forall x, In x s -> 0 <= x) -> 0 <= interpolate s q.
Proof.
  intros Hq Hs. unfold interpolate.
  set (pos := q / 100 * INR (length s - 1)).
  assert (Hpos : 0 <= pos).
  { unfold pos. assert (H := pos_INR (length s - 1)). nra. }
  destruct (base_Int_part pos) as (Hlo & Hhi).
  assert (Hz : (0 <= Int_part pos)%Z).
  { apply le_IZR. destruct (Z_le_gt_dec 0 (Int_part pos)) as [H|H].
    - now apply IZR_le.
    - exfalso. assert (Int_part pos <= -1)%Z by lia.
      apply IZR_le in H0. lra. }
  rewrite INR_IZR_INZ, Z2Nat.id by exact Hz.
  set (lo := Z.to_nat (Int_part pos)).
  assert (Ha := nth_nonneg s lo Hs).
  assert (Hb := nth_nonneg s (Nat.min (lo + 1) (length s - 1)) Hs).
  nra.
Qed.

(** One shrink step from the smallest radius the invariant allows: the
    radius that comes back is half of it. *)
Lemma update_shrinks_below_floor :
  let floor := min_tr_radius sample_settings * 16 in
  floor >= min_tr_radius sample_settings * 16 /\
  update_trust_region_radius sample_settings floor (PyFloat 1) (PyFloat 0)
    = Ok (floor * 0.5, false) /\
  ~ floor * 0.5 >= min_tr_radius sample_settings * 16.
Proof.
  simpl. split; [lra|]. split; [|lra].
  unfold update_trust_region_radius.
  rewrite assert_radius by lra.
  rewrite truediv_nonzero by (simpl; lra). simpl.
  unfold Rgeb, Rleb. Rdecide. reflexivity.
Qed.

(** C9, as the code has it: the radius of [init_trust_region] is at
    least [min_tr_radius * 16] and non-negative.  The radius of
    [update_trust_region_radius] is, whatever radius went in, that
    radius times 0.5, 1 or 2, hence non-negative and at least half of
    it.  When the radius that went in is at least
    [min_tr_radius * 16], the one that comes back is at least
    [min_tr_radius * 8], and at least [min_tr_radius * 16] on every
    step that does not halve it, in particular when the ratio is above
    the shrink threshold.  These are inequalities between real numbers:
    nothing is said of overflow. *)
Theorem radius_invariant (settings : RbfoptSettings) :
  (forall n k node_pos center model_set tr_radius,
     init_trust_region settings n k node_pos center
       = Ok (model_set, tr_radius) ->
     tr_radius >= min_tr_radius settings * 16 /\ tr_radius >= 0) /\
  (forall tr_radius model_obj_diff real_obj_diff new_radius accept,
     update_trust_region_radius settings tr_radius model_obj_diff
         real_obj_diff
       = Ok (new_radius, accept) ->
     new_radius >= 0 /\
     new_radius >= tr_radius * 0.5 /\
     (new_radius = tr_radius * 0.5 \/ new_radius = tr_radius \/
      new_radius = tr_radius * 2) /\
     (tr_radius >= min_tr_radius settings * 16 ->
      new_radius >= min_tr_radius settings * 8 /\
      (new_radius = tr_radius * 0.5 \/
       new_radius >= min_tr_radius settings * 16) /\
      (value model_obj_diff <> 0 ->
       ~ value real_obj_diff / value model_obj_diff
           <= tr_acceptable_decrease_shrink settings ->
       new_radius >= min_tr_radius settings * 16))).
Proof.
  split.
  - intros n k node_pos center model_set tr_radius H.
    unfold init_trust_region in H.
    apply bind_Ok in H. destruct H as (_ & _ & H).
    apply bind_Ok in H. destruct H as (_ & _ & H).
    apply bind_Ok in H. destruct H as (_ & _ & H).
    apply bind_Ok in H. destruct H as (dist & Hd & H).
    apply bind_Ok in H. destruct H as (p & Hp & H).
    injection H as _ <-. rewrite py_max_Rmax.
    match goal with
    | |- Rmax p ?m >= _ /\ _ =>
        assert (Hfloor := Rmax_r p m); assert (Hperc := Rmax_l p m)
    end.
    split; [lra|].
    assert (0 <= p); [|lra].
    unfold cdist_row in Hd.
    match type of Hd with
    | (if ?c then _ else _) = _ => destruct c; [|discriminate]
    end.
    injection Hd as <-.
    unfold np_percentile in Hp.
    destruct (Rleb 0 0.25 && Rleb 0.25 100); [|discriminate].
    match type of Hp with
    | match ?a with [] => _ | _ :: _ => _ end = _ =>
        destruct a as [|x s] eqn:Es; [discriminate|]
    end.
    injection Hp as <-.
    change (insert_val x (sort_val s)) with (sort_val (x :: s)).
    rewrite <- Es.
    apply interpolate_nonneg; [lra|].
    intros y Hy. apply (proj1 (In_sort_val _ _)) in Hy.
    apply in_map_iff in Hy. destruct Hy as (i & <- & _).
    rewrite nth_cdist. apply euclidean_nonneg.
  - intros tr_radius m ro new_radius accept H.
    unfold update_trust_region_radius in H.
    apply bind_Ok in H. destruct H as (u & Ha & H).
    apply bind_Ok in H. destruct H as (d & Hd & H).
    injection H as <- _.
    assert (Hr : 0 <= tr_radius).
    { unfold assert in Ha. destruct (Rgeb tr_radius 0) eqn:E;
        [|discriminate]. apply Rgeb_true in E. lra. }
    destruct (fle d (tr_acceptable_decrease_shrink settings)) eqn:Es.
    + split; [lra|]. split; [lra|]. split; [now left|].
      intros Hinv. split; [lra|]. split; [now left|].
      intros Hm Hratio. exfalso.
      rewrite (truediv_nonzero _ _ Hm) in Hd. injection Hd as <-.
      simpl in Es. apply Rleb_true in Es. contradiction.
    + assert (Hkeep : (if fge d (tr_acceptable_decrease_enlarge settings)
                       then tr_radius * 2 else tr_radius) >= tr_radius).
      { destruct (fge d _); lra. }
      split; [lra|]. split; [lra|].
      split; [destruct (fge d _); tauto|].
      intros Hinv. split; [lra|]. split; [right; lra|].
      intros _ _. lra.
Qed.

Lemma radius_invariant_witness :
  (201 / 200 >= min_tr_radius sample_settings * 16 /\ 201 / 200 >= 0) /\
  (1 * 2 >= 0 /\ 1 * 2 >= 1 * 0.5 /\
   1 * 2 >= min_tr_radius sample_settings * 16).
Proof.
  destruct (radius_invariant sample_settings) as (Hinit & Hupd). split.
  - exact (Hinit 1%nat 3%nat [[0]; [1]; [3]] [0] [0; 1; 2]%nat (201 / 200)
             init_trust_region_run).
  - assert (Hinv : 1 >= min_tr_radius sample_settings * 16) by (simpl; lra).
    destruct (Hupd 1 (NpFloat64 0) (NpFloat64 1) (1 * 2) true
                update_run_float64_zero)
      as (H0 & Hhalf & _ & Hfloor).
    destruct (Hfloor Hinv) as (_ & [H|H] & _); [lra|].
    split; [exact H0|]. split; [exact Hhalf|exact H].
Defined.

(** ** [get_linear_model] *)

Lemma sys_not_bound : load_global "sys" = Raise NameError.
Proof. reflexivity. Qed.

Section LinearModelFacts.

Variable lstsq : list vec -> vec -> option vec.

(** C6 on the code: when the least-squares solve fails, the handler
    reads [sys.stderr], but the module never imports [sys]; the call
    ends in [NameError] and the [LinAlgError] does not reach the
    caller. *)
Theorem get_linear_model_lstsq_failure (settings : RbfoptSettings)
    (n k : nat) (node_pos : list vec) (node_val : vec)
    (model_set : list Z) :
  length node_pos = k -> length node_val = k ->
  (forall i, In i model_set -> (0 <= i < Z.of_nat k)%Z) ->
  lstsq (hstack_ones (map (fun i => nth (Z.to_nat i) node_pos []) model_set))
        (map (fun i => nth (Z.to_nat i) node_val 0) model_set) = None ->
  get_linear_model lstsq settings n k node_pos node_val model_set
    = Raise NameError /\
  get_linear_model lstsq settings n k node_pos node_val model_set
    <> Raise LinAlgError.
Proof.
  intros Hp Hv Hidx Hfail.
  assert (E : get_linear_model lstsq settings n k node_pos node_val
                model_set = Raise NameError).
  { unfold get_linear_model. unfold vec in *.
    rewrite !assert_length by assumption. cbn [bind].
    rewrite take_in_range by (intros i Hi; rewrite ?Hp, ?Hv; now apply Hidx).
    cbn [bind].
    rewrite take_in_range by (intros i Hi; rewrite ?Hp, ?Hv; now apply Hidx).
    cbn [bind]. rewrite Hfail, sys_not_bound. reflexivity. }
  split; [exact E|]. rewrite E. discriminate.
Qed.

(** Whatever the arguments, [LinAlgError] is not among the outcomes. *)
Lemma get_linear_model_no_LinAlgError (settings : RbfoptSettings)
    (n k : nat) (node_pos : list vec) (node_val : vec)
    (model_set : list Z) :
  get_linear_model lstsq settings n k node_pos node_val model_set
    <> Raise LinAlgError.
Proof.
  unfold get_linear_model, assert.
  destruct (length node_pos =? k)%nat; [|discriminate].
  destruct (length node_val =? k)%nat; [|discriminate].
  cbn [bind].
  destruct (take [] node_pos model_set) as [rows|e|] eqn:Er;
    cbn [bind]; [| |discriminate].
  - destruct (take 0 node_val model_set) as [rhs|e|] eqn:Ev;
      cbn [bind]; [| |discriminate].
    + destruct (lstsq _ rhs) as [[|x0 x]|].
      * discriminate.
      * discriminate.
      * rewrite sys_not_bound. discriminate.
    + intros H. injection H as ->. revert Ev. clear.
      induction model_set as [|i idx IH]; simpl; [discriminate|].
      unfold index.
      destruct (_ && _); cbn [bind].
      * destruct (take 0 node_val idx); cbn [bind];
          [discriminate|intros H; now apply IH|discriminate].
      * destruct (_ && _); cbn [bind]; [|discriminate].
        destruct (take 0 node_val idx); cbn [bind];
          [discriminate|intros H; now apply IH|discriminate].
  - intros H. injection H as ->. revert Er. clear.
    induction model_set as [|i idx IH]; simpl; [discriminate|].
    unfold index.
    destruct (_ && _); cbn [bind].
    + destruct (take [] node_pos idx); cbn [bind];
        [discriminate|intros H; now apply IH|discriminate].
    + destruct (_ && _); cbn [bind]; [|discriminate].
      destruct (take [] node_pos idx); cbn [bind];
        [discriminate|intros H; now apply IH|discriminate].
Qed.

(** When the solve succeeds the model is read off the solution. *)
Lemma get_linear_model_returns (settings : RbfoptSettings)
    (n k : nat) (node_pos : list vec) (node_val : vec)
    (model_set : list Z) (x0 : R) (x : vec) :
  length node_pos = k -> length node_val = k ->
  (forall i, In i model_set -> (0 <= i < Z.of_nat k)%Z) ->
  lstsq (hstack_ones (map (fun i => nth (Z.to_nat i) node_pos []) model_set))
        (map (fun i => nth (Z.to_nat i) node_val 0) model_set)
    = Some (x0 :: x) ->
  get_linear_model lstsq settings n k node_pos node_val model_set
    = Ok (firstn n (x0 :: x), last (x0 :: x) 0).
Proof.
  intros Hp Hv Hidx Hsol. unfold get_linear_model. unfold vec in *.
  rewrite !assert_length by assumption. cbn [bind].
  rewrite take_in_range by (intros i Hi; rewrite ?Hp, ?Hv; now apply Hidx).
  cbn [bind].
  rewrite take_in_range by (intros i Hi; rewrite ?Hp, ?Hv; now apply Hidx).
  cbn [bind]. rewrite Hsol. reflexivity.
Qed.

End LinearModelFacts.

Lemma model_set_0_1 (i : Z) : In i [0; 1]%Z -> (0 <= i < Z.of_nat 2)%Z.
Proof. simpl. intros [<-|[<-|[]]]; lia. Qed.

Lemma get_linear_model_lstsq_failure_witness :
  get_linear_model (fun _ _ => None) sample_settings 1 2 [[0]; [1]] [0; 1]
      [0; 1]%Z
    = Raise NameError /\
  get_linear_model (fun _ _ => None) sample_settings 1 2 [[0]; [1]] [0; 1]
      [0; 1]%Z
    <> Raise LinAlgError.
Proof.
  exact (get_linear_model_lstsq_failure (fun _ _ => None) sample_settings
           1 2 [[0]; [1]] [0; 1] [0; 1]%Z eq_refl eq_refl model_set_0_1
           eq_refl).
Defined.

(** * Further properties of the module *)

(** ** Norms and distances *)

Lemma dot_self_zero (w : vec) :
  dot w w = 0 <-> Forall (fun x => x = 0) w.
Proof.
  induction w as [|a w IH].
  - split; [constructor|reflexivity].
  - rewrite dot_cons. split.
    + intros H.
      assert (Hw : 0 <= dot w w) by (apply dot_nonneg; intros; nra).
      assert (Ha : a = 0) by nra.
      constructor; [exact Ha|]. apply IH. nra.
    + intros H. inversion H as [|? ? Ha Hw]; subst.
      apply IH in Hw. rewrite Hw. lra.
Qed.

Lemma norm_zero (h : vec) : norm h = 0 <-> Forall (fun x => x = 0) h.
Proof.
  rewrite <- dot_self_zero. unfold norm. split.
  - intros H. apply sqrt_eq_0; [|exact H].
    apply dot_nonneg. intros. nra.
  - intros ->. apply sqrt_0.
Qed.

Lemma norm_nonneg (h : vec) : 0 <= norm h.
Proof. apply sqrt_pos. Qed.

Lemma nth_sq_le_dot (h : vec) (i : nat) :
  nth i h 0 * nth i h 0 <= dot h h.
Proof.
  revert i. induction h as [|a h IH]; intros i.
  - destruct i; unfold dot; simpl; lra.
  - rewrite dot_cons. destruct i as [|i]; simpl.
    + assert (0 <= dot h h) by (apply dot_nonneg; intros; nra). lra.
    + assert (H := IH i). nra.
Qed.

Lemma nth_abs_le_norm (h : vec) (i : nat) :
  - norm h <= nth i h 0 <= norm h.
Proof.
  assert (Hsq := nth_sq_le_dot h i).
  assert (Hn := norm_nonneg h).
  assert (Hnn : norm h * norm h = dot h h).
  { unfold norm. apply sqrt_sqrt. apply dot_nonneg. intros. nra. }
  split; nra.
Qed.

Lemma norm_sq (h : vec) : norm h * norm h = dot h h.
Proof.
  unfold norm. apply sqrt_sqrt. apply dot_nonneg. intros. nra.
Qed.

(** ** [get_candidate_point]: errors and edge cases *)

(** X1: a vector of the wrong length or a negative radius fails an
    assertion. *)
Theorem get_candidate_point_rejects (settings : RbfoptSettings) (n k : nat)
    (var_lower var_upper h start_point : vec) (tr_radius : R) :
  length var_lower <> n \/ length var_upper <> n \/
  length start_point <> n \/ length h <> n \/ tr_radius < 0 ->
  get_candidate_point settings n k var_lower var_upper h start_point tr_radius
    = Raise AssertionError.
Proof.
  intros H. unfold get_candidate_point, assert.
  destruct (Nat.eqb_spec (length var_lower) n) as [E1|N1]; [|reflexivity].
  destruct (Nat.eqb_spec (length var_upper) n) as [E2|N2]; [|reflexivity].
  destruct (Nat.eqb_spec (length start_point) n) as [E3|N3]; [|reflexivity].
  destruct (Nat.eqb_spec (length h) n) as [E4|N4]; [|reflexivity].
  cbn [bind].
  destruct (Rgeb tr_radius 0) eqn:Er; [|reflexivity].
  apply Rgeb_true in Er.
  destruct H as [H|[H|[H|[H|H]]]]; try contradiction. lra.
Qed.

Lemma get_candidate_point_rejects_witness :
  get_candidate_point sample_settings 2 10 [0; 0] [10; 10] [3; 4] [5; 5] (-1)
    = Raise AssertionError.
Proof.
  apply get_candidate_point_rejects.
  right; right; right; right. lra.
Defined.

Lemma div_le_div (a b c d : R) :
  0 < b -> 0 < d -> a * d <= c * b -> a / b <= c / d.
Proof.
  intros Hb Hd H.
  replace (a / b) with (a * d * / (b * d)) by (field; lra).
  replace (c / d) with (c * b * / (b * d)) by (field; lra).
  apply Rmult_le_compat_r; [|exact H].
  apply Rlt_le, Rinv_0_lt_compat. nra.
Qed.

Lemma is_minimum_unique (P : R -> Prop) (t t' : R) :
  is_minimum P t -> is_minimum P t' -> t = t'.
Proof.
  intros [H1 H2] [H1' H2'].
  apply Rle_antisym; [now apply H2|now apply H2'].
Qed.

Lemma nth_vscale (c : R) (h : vec) (i : nat) :
  nth i (vscale c h) 0 = c * nth i h 0.
Proof.
  unfold vscale. destruct (Nat.lt_ge_cases i (length h)) as [Hi|Hi].
  - now apply nth_map_in.
  - rewrite !nth_overflow; [lra|exact Hi|now rewrite length_map].
Qed.

Lemma length_vscale (c : R) (h : vec) : length (vscale c h) = length h.
Proof. apply length_map. Qed.

Lemma length_step_from (start_point h : vec) (t : R) (n : nat) :
  length start_point = n -> length h = n ->
  length (step_from start_point h t) = n.
Proof.
  intros Hs Hh. unfold step_from, vsub.
  rewrite length_map2, length_vscale. lia.
Qed.

Lemma dot_vscale_r (c : R) (u v : vec) : dot u (vscale c v) = c * dot u v.
Proof.
  revert v. induction u as [|a u IH]; intros [|b v];
    try (unfold dot; simpl; lra).
  unfold vscale. simpl map. fold (vscale c v).
  rewrite !dot_cons, IH. lra.
Qed.

Lemma dot_vscale_l (c : R) (u v : vec) : dot (vscale c u) v = c * dot u v.
Proof.
  revert v. induction u as [|a u IH]; intros [|b v];
    try (unfold dot; simpl; lra).
  unfold vscale. simpl map. fold (vscale c u).
  rewrite !dot_cons, IH. lra.
Qed.

Lemma norm_vscale (c : R) (h : vec) : 0 <= c -> norm (vscale c h) = c * norm h.
Proof.
  intros Hc. unfold norm.
  rewrite dot_vscale_l, dot_vscale_r.
  replace (c * (c * dot h h)) with (c * c * dot h h) by lra.
  rewrite sqrt_mult_alt by nra. now rewrite sqrt_square.
Qed.

Lemma vsub_vsub (u w : vec) :
  length w = length u -> vsub u (vsub u w) = w.
Proof.
  revert w. induction u as [|a u IH]; intros [|b w] H; try discriminate.
  - reflexivity.
  - unfold vsub, map2 in *. simpl. f_equal; [lra|].
    apply IH. simpl in H. lia.
Qed.

Lemma vsub_self_dot (h u : vec) :
  length u = length h -> dot h (vsub u u) = 0.
Proof. intros H. rewrite dot_vsub_r by assumption. lra. Qed.

Lemma nth_candidate (n : nat) (var_lower var_upper h start_point : vec)
    (t : R) (i : nat) :
  length var_lower = n -> length var_upper = n ->
  length start_point = n -> length h = n -> (i < n)%nat ->
  nth i (clip (vsub start_point (vscale t h)) var_lower var_upper) 0
    = clip1 (nth i start_point 0 - t * nth i h 0)
            (nth i var_lower 0) (nth i var_upper 0).
Proof.
  intros Hl Hu Hs Hh Hi.
  assert (Hlen : length (vsub start_point (vscale t h)) = n)
    by now apply length_step_from.
  rewrite nth_clip by congruence.
  now rewrite nth_step by congruence.
Qed.

(** Every step length on the list of the contract is non-negative when
    the start lies inside the bounds. *)
Lemma step_bound_nonneg (settings : RbfoptSettings) (n : nat)
    (var_lower var_upper h start_point : vec) (tr_radius v : R) :
  length h = n -> norm h > 0 -> tr_radius >= 0 ->
  (forall i, (i < n)%nat ->
     nth i var_lower 0 <= nth i start_point 0 <= nth i var_upper 0) ->
  step_bound settings var_lower var_upper h start_point tr_radius v ->
  0 <= v.
Proof.
  intros Hh Hn Hr Hbox HS.
  destruct HS as [|i Hi Hg Hx|i Hi Hg Hx].
  - apply Rle_mult_inv_pos; lra.
  - assert (Hb := Hbox i ltac:(lia)). apply Rle_mult_inv_pos; lra.
  - assert (Hb := Hbox i ltac:(lia)).
    replace ((nth i start_point 0 - nth i var_upper 0) / nth i h 0)
      with ((nth i var_upper 0 - nth i start_point 0) / (- nth i h 0))
      by (field; lra).
    apply Rle_mult_inv_pos; lra.
Qed.

Lemma clip1_inside (x lo hi : R) : lo <= x <= hi -> clip1 x lo hi = x.
Proof.
  intros H. unfold clip1, Rmin, Rmax.
  destruct (Rle_dec x lo); destruct (Rle_dec _ hi); lra.
Qed.

(** X3: with radius zero the candidate is the start itself and the
    model difference is zero. *)
Theorem get_candidate_point_zero_radius (settings : RbfoptSettings)
    (n k : nat) (var_lower var_upper h start_point : vec) :
  length var_lower = n -> length var_upper = n ->
  length start_point = n -> length h = n ->
  norm h > 0 ->
  (forall i, (i < n)%nat ->
     nth i var_lower 0 <= nth i start_point 0 <= nth i var_upper 0) ->
  get_candidate_point settings n k var_lower var_upper h start_point 0
    = Ok (start_point, 0, norm h).
Proof.
  intros Hl Hu Hs Hh Hn Hbox.
  rewrite get_candidate_point_returns by (try assumption; lra).
  destruct (max_step_is_minimum settings n var_lower var_upper h start_point
              0 Hl Hu Hs Hh) as (HS & Hmin).
  set (t := max_step settings var_lower var_upper h start_point 0) in *.
  assert (Ht : t = 0).
  { apply Rle_antisym.
    - assert (H := Hmin _ (step_radius settings var_lower var_upper h
                             start_point 0)).
      unfold Rdiv in H. now rewrite Rmult_0_l in H.
    - apply (step_bound_nonneg settings n var_lower var_upper h start_point
               0 t); try assumption. lra. }
  assert (Ec : clip (vsub start_point (vscale t h)) var_lower var_upper
               = start_point).
  { apply (nth_ext _ _ 0 0).
    - rewrite (length_clip _ _ _ n); try assumption; [congruence|].
      now apply length_step_from.
    - intros i Hi.
      rewrite (length_clip _ _ _ n) in Hi; try assumption;
        [|now apply length_step_from].
      rewrite (nth_candidate n) by assumption.
      rewrite Ht. replace (nth i start_point 0 - 0 * nth i h 0)
        with (nth i start_point 0) by lra.
      apply clip1_inside. now apply Hbox. }
  rewrite Ec. f_equal. f_equal. f_equal.
  apply vsub_self_dot. congruence.
Qed.

Lemma get_candidate_point_zero_radius_witness :
  get_candidate_point sample_settings 2 10 [0; 0] [10; 10] [3; 4] [5; 5] 0
    = Ok ([5; 5], 0, norm [3; 4]).
Proof.
  assert (Hn : norm [3; 4] > 0) by (rewrite norm_3_4; lra).
  exact (get_candidate_point_zero_radius sample_settings 2 10 [0; 0] [10; 10]
           [3; 4] [5; 5] eq_refl eq_refl eq_refl eq_refl Hn box_0_10).
Defined.

(** X4: when the whole ball of radius [tr_radius] around the start
    fits inside the bounds, no bound shortens the step: the candidate
    is the start moved by [tr_radius / ||h||] against the gradient, at
    distance exactly [tr_radius], and the model difference is
    [tr_radius * ||h||]. *)
Theorem get_candidate_point_interior (settings : RbfoptSettings) (n k : nat)
    (var_lower var_upper h start_point : vec) (tr_radius : R) :
  length var_lower = n -> length var_upper = n ->
  length start_point = n -> length h = n ->
  norm h > 0 -> tr_radius >= 0 ->
  (forall i, (i < n)%nat ->
     nth i var_lower 0 + tr_radius <= nth i start_point 0
       <= nth i var_upper 0 - tr_radius) ->
  let candidate := step_from start_point h (tr_radius / norm h) in
  get_candidate_point settings n k var_lower var_upper h start_point tr_radius
    = Ok (candidate, tr_radius * norm h, norm h) /\
  euclidean start_point candidate = tr_radius.
Proof.
  intros Hl Hu Hs Hh Hn Hr Hball candidate.
  rewrite get_candidate_point_returns by assumption.
  destruct (max_step_is_minimum settings n var_lower var_upper h start_point
              tr_radius Hl Hu Hs Hh) as (HS & Hmin).
  set (t := max_step settings var_lower var_upper h start_point tr_radius)
    in *.
  set (N := norm h) in *.
  assert (Ht : t = tr_radius / N).
  { apply Rle_antisym; [apply Hmin, step_radius|].
    destruct HS as [|i Hi Hg Hx|i Hi Hg Hx].
    - fold N. lra.
    - assert (Hb := Hball i ltac:(lia)).
      assert (Hhi := nth_abs_le_norm h i). fold N in Hhi.
      apply div_le_div; [lra|lra|]. nra.
    - assert (Hb := Hball i ltac:(lia)).
      assert (Hhi := nth_abs_le_norm h i). fold N in Hhi.
      replace ((nth i start_point 0 - nth i var_upper 0) / nth i h 0)
        with ((nth i var_upper 0 - nth i start_point 0) / (- nth i h 0))
        by (field; lra).
      apply div_le_div; [lra|lra|]. nra. }
  assert (HtN : t * N = tr_radius) by (rewrite Ht; field; lra).
  assert (Ht0 : 0 <= t).
  { rewrite Ht. apply Rle_mult_inv_pos; lra. }
  assert (Ec : clip (vsub start_point (vscale t h)) var_lower var_upper
               = step_from start_point h t).
  { apply (nth_ext _ _ 0 0).
    - rewrite (length_clip _ _ _ n), (length_step_from _ _ _ n);
        try assumption; [reflexivity|now apply length_step_from].
    - intros i Hi.
      rewrite (length_clip _ _ _ n) in Hi; try assumption;
        [|now apply length_step_from].
      rewrite (nth_candidate n) by assumption.
      unfold step_from. rewrite nth_step by congruence.
      apply clip1_inside.
      assert (Hb := Hball i Hi).
      assert (Hhi := nth_abs_le_norm h i). fold N in Hhi.
      split; nra. }
  rewrite Ec. subst candidate. rewrite <- Ht.
  assert (Ew : vsub start_point (step_from start_point h t) = vscale t h).
  { unfold step_from. apply vsub_vsub. rewrite length_vscale. congruence. }
  split.
  - rewrite Ew, dot_vscale_r.
    replace (t * dot h h) with (tr_radius * N);
      [reflexivity|]. rewrite <- norm_sq. fold N. nra.
  - unfold euclidean. rewrite Ew, norm_vscale by exact Ht0. exact HtN.
Qed.

Lemma box_1_9 (i : nat) :
  (i < 2)%nat ->
  nth i [0; 0] 0 + 1 <= nth i [5; 5] 0 <= nth i [10; 10] 0 - 1.
Proof.
  intros Hi. destruct i as [|[|i]]; simpl; try lra; lia.
Qed.

Lemma get_candidate_point_interior_witness :
  get_candidate_point sample_settings 2 10 [0; 0] [10; 10] [3; 4] [5; 5] 1
    = Ok (step_from [5; 5] [3; 4] (1 / norm [3; 4]), 1 * norm [3; 4],
          norm [3; 4]) /\
  euclidean [5; 5] (step_from [5; 5] [3; 4] (1 / norm [3; 4])) = 1.
Proof.
  assert (Hn : norm [3; 4] > 0) by (rewrite norm_3_4; lra).
  assert (Hr : 1 >= 0) by lra.
  exact (get_candidate_point_interior sample_settings 2 10 [0; 0] [10; 10]
           [3; 4] [5; 5] 1 eq_refl eq_refl eq_refl eq_refl Hn Hr box_1_9).
Defined.

(** X5: from a start inside the bounds every coordinate moves against
    its gradient entry: down where the entry is positive, up where it
    is negative, not at all where it is zero. *)
Theorem get_candidate_point_direction (settings : RbfoptSettings) (n k : nat)
    (var_lower var_upper h start_point : vec) (tr_radius : R) :
  length var_lower = n -> length var_upper = n ->
  length start_point = n -> length h = n ->
  norm h > 0 -> tr_radius >= 0 ->
  (forall i, (i < n)%nat ->
     nth i var_lower 0 <= nth i start_point 0 <= nth i var_upper 0) ->
  exists (candidate : vec) (model_delta grad_norm : R),
    get_candidate_point settings n k var_lower var_upper h start_point
        tr_radius
      = Ok (candidate, model_delta, grad_norm) /\
    forall i, (i < n)%nat ->
      (nth i h 0 > 0 -> nth i candidate 0 <= nth i start_point 0) /\
      (nth i h 0 < 0 -> nth i start_point 0 <= nth i candidate 0) /\
      (nth i h 0 = 0 -> nth i candidate 0 = nth i start_point 0).
Proof.
  intros Hl Hu Hs Hh Hn Hr Hbox.
  eexists; eexists; eexists. split.
  { now apply get_candidate_point_returns. }
  destruct (max_step_is_minimum settings n var_lower var_upper h start_point
              tr_radius Hl Hu Hs Hh) as (HS & _).
  set (t := max_step settings var_lower var_upper h start_point tr_radius)
    in *.
  assert (Ht0 : 0 <= t).
  { now apply (step_bound_nonneg settings n var_lower var_upper h
                 start_point tr_radius t). }
  intros i Hi. rewrite (nth_candidate n) by assumption.
  destruct (clip1_step (nth i start_point 0) (nth i var_lower 0)
              (nth i var_upper 0) t (nth i h 0) (Hbox i Hi) Ht0)
    as (_ & Hsign & Hsq).
  set (c := clip1 (nth i start_point 0 - t * nth i h 0)
                  (nth i var_lower 0) (nth i var_upper 0)) in *.
  split; [|split]; intros Hg.
  - nra.
  - nra.
  - rewrite Hg in Hsq. nra.
Qed.

Lemma get_candidate_point_direction_witness :
  exists (candidate : vec) (model_delta grad_norm : R),
    get_candidate_point sample_settings 2 10 [0; 0] [10; 10] [3; 4] [5; 5] 1
      = Ok (candidate, model_delta, grad_norm) /\
    forall i, (i < 2)%nat ->
      (nth i [3; 4] 0 > 0 -> nth i candidate 0 <= nth i [5; 5] 0) /\
      (nth i [3; 4] 0 < 0 -> nth i [5; 5] 0 <= nth i candidate 0) /\
      (nth i [3; 4] 0 = 0 -> nth i candidate 0 = nth i [5; 5] 0).
Proof.
  assert (Hn : norm [3; 4] > 0) by (rewrite norm_3_4; lra).
  assert (Hr : 1 >= 0) by lra.
  exact (get_candidate_point_direction sample_settings 2 10 [0; 0] [10; 10]
           [3; 4] [5; 5] 1 eq_refl eq_refl eq_refl eq_refl Hn Hr box_0_10).
Defined.

(** Scaling the gradient by [c > 0] divides every step length of the
    contract by [c]. *)
Lemma step_bound_scale (settings : RbfoptSettings)
    (var_lower var_upper h start_point : vec) (tr_radius c v : R) :
  0 < c -> norm h > 0 ->
  (step_bound settings var_lower var_upper (vscale c h) start_point
     tr_radius v
   <-> step_bound settings var_lower var_upper h start_point tr_radius
         (c * v)).
Proof.
  intros Hc Hn.
  assert (Hnc : norm (vscale c h) = c * norm h) by (apply norm_vscale; lra).
  split; intros HS.
  - inversion HS as [E|i Hi Hg Hx E|i Hi Hg Hx E]; subst.
    + rewrite Hnc.
      replace (c * (tr_radius / (c * norm h))) with (tr_radius / norm h)
        by (field; lra).
      apply step_radius.
    + rewrite length_vscale in Hi. rewrite nth_vscale in Hg |- *.
      replace (c * ((nth i start_point 0 - nth i var_lower 0)
                    / (c * nth i h 0)))
        with ((nth i start_point 0 - nth i var_lower 0) / nth i h 0)
        by (field; nra).
      apply step_lower; [exact Hi|nra|exact Hx].
    + rewrite length_vscale in Hi. rewrite nth_vscale in Hg |- *.
      replace (c * ((nth i start_point 0 - nth i var_upper 0)
                    / (c * nth i h 0)))
        with ((nth i start_point 0 - nth i var_upper 0) / nth i h 0)
        by (field; nra).
      apply step_upper; [exact Hi|nra|exact Hx].
  - remember (c * v) as w eqn:Ew.
    assert (Ev : v = w / c) by (rewrite Ew; field; lra).
    rewrite Ev. clear Ev Ew v.
    destruct HS as [|i Hi Hg Hx|i Hi Hg Hx].
    + replace (tr_radius / norm h / c)
        with (tr_radius / norm (vscale c h)) by (rewrite Hnc; field; lra).
      apply step_radius.
    + replace ((nth i start_point 0 - nth i var_lower 0) / nth i h 0 / c)
        with ((nth i start_point 0 - nth i var_lower 0)
              / nth i (vscale c h) 0)
        by (rewrite nth_vscale; field; lra).
      apply step_lower;
        [now rewrite length_vscale|rewrite nth_vscale; nra|exact Hx].
    + replace ((nth i start_point 0 - nth i var_upper 0) / nth i h 0 / c)
        with ((nth i start_point 0 - nth i var_upper 0)
              / nth i (vscale c h) 0)
        by (rewrite nth_vscale; field; lra).
      apply step_upper;
        [now rewrite length_vscale|rewrite nth_vscale; nra|exact Hx].
Qed.

(** X6: the candidate depends on the direction of the gradient only.
    Scaling the gradient by [c > 0] leaves the candidate where it is
    and multiplies the model difference and the gradient norm by [c]. *)
Theorem get_candidate_point_scale (settings : RbfoptSettings) (n k : nat)
    (var_lower var_upper h start_point : vec) (tr_radius c : R) :
  0 < c ->
  length var_lower = n -> length var_upper = n ->
  length start_point = n -> length h = n ->
  norm h > 0 -> tr_radius >= 0 ->
  exists (candidate : vec) (model_delta grad_norm : R),
    get_candidate_point settings n k var_lower var_upper h start_point
        tr_radius
      = Ok (candidate, model_delta, grad_norm) /\
    get_candidate_point settings n k var_lower var_upper (vscale c h)
        start_point tr_radius
      = Ok (candidate, c * model_delta, c * grad_norm).
Proof.
  intros Hc Hl Hu Hs Hh Hn Hr.
  assert (Hnc : norm (vscale c h) = c * norm h) by (apply norm_vscale; lra).
  assert (Hhc : length (vscale c h) = n) by now rewrite length_vscale.
  eexists; eexists; eexists. split.
  { now apply get_candidate_point_returns. }
  rewrite get_candidate_point_returns; try assumption; [|rewrite Hnc; nra].
  set (t := max_step settings var_lower var_upper h start_point tr_radius).
  set (t' := max_step settings var_lower var_upper (vscale c h) start_point
               tr_radius).
  assert (Ht : t = c * t').
  { destruct (max_step_is_minimum settings n var_lower var_upper h
                start_point tr_radius Hl Hu Hs Hh) as (HS & Hmin).
    destruct (max_step_is_minimum settings n var_lower var_upper (vscale c h)
                start_point tr_radius Hl Hu Hs Hhc) as (HS' & Hmin').
    fold t in HS, Hmin. fold t' in HS', Hmin'.
    apply Rle_antisym.
    - apply Hmin. now apply step_bound_scale.
    - assert (Hle : t' <= t / c).
      { apply Hmin'. apply step_bound_scale; try assumption.
        replace (c * (t / c)) with t by (field; lra). exact HS. }
      apply Rmult_le_compat_l with (r := c) in Hle; [|lra].
      replace (c * (t / c)) with t in Hle by (field; lra). exact Hle. }
  assert (Es : vscale t' (vscale c h) = vscale t h).
  { unfold vscale. rewrite map_map. apply map_ext. intros x. rewrite Ht. lra. }
  rewrite Es, Hnc, dot_vscale_l. reflexivity.
Qed.

Lemma get_candidate_point_scale_witness :
  exists (candidate : vec) (model_delta grad_norm : R),
    get_candidate_point sample_settings 2 10 [0; 0] [10; 10] [3; 4] [5; 5] 1
      = Ok (candidate, model_delta, grad_norm) /\
    get_candidate_point sample_settings 2 10 [0; 0] [10; 10]
        (vscale 2 [3; 4]) [5; 5] 1
      = Ok (candidate, 2 * model_delta, 2 * grad_norm).
Proof.
  assert (Hc : 0 < 2) by lra.
  assert (Hn : norm [3; 4] > 0) by (rewrite norm_3_4; lra).
  assert (Hr : 1 >= 0) by lra.
  exact (get_candidate_point_scale sample_settings 2 10 [0; 0] [10; 10]
           [3; 4] [5; 5] 1 2 Hc eq_refl eq_refl eq_refl eq_refl Hn Hr).
Defined.

(** ** [get_integer_candidate]: indices, errors and fixed points *)

Lemma index_valid (n : nat) (i : Z) :
  (- Z.of_nat n <= i < Z.of_nat n)%Z ->
  index n i = Ok (wrap n i) /\ (wrap n i < n)%nat.
Proof.
  intros Hi. unfold index, wrap.
  destruct (Z.ltb_spec i 0) as [Hneg|Hpos].
  - replace ((0 <=? i)%Z) with false by (symmetry; apply Z.leb_gt; lia).
    cbn [andb].
    replace ((- Z.of_nat n <=? i)%Z) with true
      by (symmetry; apply Z.leb_le; lia).
    cbn [andb]. split; [reflexivity|lia].
  - replace ((0 <=? i)%Z) with true by (symmetry; apply Z.leb_le; lia).
    replace ((i <? Z.of_nat n)%Z) with true
      by (symmetry; apply Z.ltb_lt; lia).
    cbn [andb]. split; [reflexivity|lia].
Qed.

Lemma index_invalid (n : nat) (i : Z) :
  ~ (- Z.of_nat n <= i < Z.of_nat n)%Z -> index n i = Raise IndexError.
Proof.
  intros Hi. unfold index.
  destruct (Z.leb_spec 0 i) as [H0|H0]; cbn [andb].
  - destruct (Z.ltb_spec i (Z.of_nat n)) as [H1|H1]; [lia|].
    destruct (Z.leb_spec (- Z.of_nat n) i); cbn [andb];
      [|reflexivity].
    destruct (Z.ltb_spec i 0); [lia|reflexivity].
  - destruct (Z.leb_spec (- Z.of_nat n) i) as [H1|H1]; cbn [andb];
      [lia|reflexivity].
Qed.

Lemma take_valid {A : Type} (d : A) (u : list A) (idx : list Z) :
  (forall i, In i idx -> (- Z.of_nat (length u) <= i < Z.of_nat (length u))%Z) ->
  take d u idx = Ok (map (fun i => nth (wrap (length u) i) u d) idx).
Proof.
  induction idx as [|i idx IH]; intros H; simpl; [reflexivity|].
  destruct (index_valid (length u) i) as (E & _); [apply H; now left|].
  rewrite E, IH by (intros j Hj; apply H; now right).
  reflexivity.
Qed.

Lemma take_invalid {A : Type} (d : A) (u : list A) (idx : list Z) :
  (exists i, In i idx /\
             ~ (- Z.of_nat (length u) <= i < Z.of_nat (length u))%Z) ->
  take d u idx = Raise IndexError.
Proof.
  induction idx as [|i idx IH]; intros (j & Hj & Hbad); [easy|].
  simpl.
  destruct (Z_le_dec (- Z.of_nat (length u)) i) as [H1|H1];
    [destruct (Z_lt_dec i (Z.of_nat (length u))) as [H2|H2]|].
  - destruct (index_valid (length u) i) as (E & _); [lia|].
    rewrite E. cbn [bind]. rewrite IH; [reflexivity|].
    exists j. split; [|exact Hbad].
    destruct Hj as [->|Hj]; [lia|exact Hj].
  - rewrite index_invalid by lia. reflexivity.
  - rewrite index_invalid by lia. reflexivity.
Qed.

(** Assigning [g j] at every listed position [j]. *)
Lemma put_valid (g : nat -> R) (n : nat) (idx : list Z) (u : vec) :
  length u = n ->
  (forall i, In i idx -> (- Z.of_nat n <= i < Z.of_nat n)%Z) ->
  exists r : vec,
    put u idx (map (fun i => g (wrap n i)) idx) = Ok r /\
    length r = n /\
    forall j, (j < n)%nat ->
      (In j (map (wrap n) idx) -> nth j r 0 = g j) /\
      (~ In j (map (wrap n) idx) -> nth j r 0 = nth j u 0).
Proof.
  revert u. induction idx as [|i idx IH]; intros u Hu H.
  - exists u. simpl. repeat split; tauto.
  - simpl put.
    destruct (index_valid n i) as (E & Hw); [apply H; now left|].
    rewrite Hu, E. cbn [bind].
    destruct (IH (update u (wrap n i) (g (wrap n i)))) as (r & Er & Hlen & Hr).
    { now rewrite length_update. }
    { intros i' Hi'. apply H. now right. }
    exists r. split; [exact Er|]. split; [exact Hlen|].
    intros j Hj. destruct (Hr j Hj) as (Hin & Hout).
    destruct (in_dec Nat.eq_dec j (map (wrap n) idx)) as [Hd|Hd].
    + split; [intros _; now apply Hin|].
      intros N. exfalso. apply N. now right.
    + split.
      * intros [Ej|Hin']; [|contradiction].
        rewrite (Hout Hd). subst j.
        apply nth_update_eq. now rewrite Hu.
      * intros N. rewrite (Hout Hd).
        apply nth_update_neq. intros Ej. apply N. now left.
Qed.

(** The call on any valid index array, negative indices included. *)
Lemma get_integer_candidate_wraps (settings : RbfoptSettings) (n k : nat)
    (h point : vec) (integer_vars : list Z) :
  length point = n -> length h = n ->
  (forall i, In i integer_vars -> (- Z.of_nat n <= i < Z.of_nat n)%Z) ->
  exists rounded : vec,
    get_integer_candidate settings n k h point integer_vars
      = Ok (rounded, dot h (vsub point rounded)) /\
    length rounded = n /\
    forall j, (j < n)%nat ->
      (In j (map (wrap n) integer_vars) ->
         nth j rounded 0 = round_at h point j) /\
      (~ In j (map (wrap n) integer_vars) ->
         nth j rounded 0 = nth j point 0).
Proof.
  intros Hp Hh Hidx. unfold get_integer_candidate.
  rewrite !assert_length by assumption. cbn [bind].
  rewrite !take_valid by (intros i Hi; rewrite ?Hp, ?Hh; now apply Hidx).
  cbn [bind]. rewrite !map_map, Hp, Hh.
  rewrite (np_where_map (fun i => Rgeb (nth (wrap n i) h 0) 0)
             (fun i => Rfloor (nth (wrap n i) point 0))
             (fun i => Rceil (nth (wrap n i) point 0))).
  destruct (put_valid (round_at h point) n integer_vars point Hp Hidx)
    as (r & Er & Hlen & Hr).
  unfold round_at in Er. rewrite Er. cbn [bind]. exists r.
  split; [reflexivity|]. split; [exact Hlen|exact Hr].
Qed.

(** X7: a vector of the wrong length fails an assertion; with vectors
    of the right length, an index outside [-n, n) raises [IndexError]. *)
Theorem get_integer_candidate_rejects (settings : RbfoptSettings) (n k : nat)
    (h point : vec) (integer_vars : list Z) :
  (length point <> n \/ length h <> n ->
   get_integer_candidate settings n k h point integer_vars
     = Raise AssertionError) /\
  (length point = n -> length h = n ->
   (exists i, In i integer_vars /\
              ~ (- Z.of_nat n <= i < Z.of_nat n)%Z) ->
   get_integer_candidate settings n k h point integer_vars
     = Raise IndexError).
Proof.
  unfold get_integer_candidate, assert. split.
  - intros H.
    destruct (Nat.eqb_spec (length point) n) as [E1|N1]; [|reflexivity].
    destruct (Nat.eqb_spec (length h) n) as [E2|N2]; [|reflexivity].
    tauto.
  - intros Hp Hh Hbad.
    rewrite Hp, Hh, !Nat.eqb_refl. cbn [bind].
    rewrite take_invalid; [reflexivity|now rewrite Hh].
Qed.

Lemma get_integer_candidate_rejects_witness :
  get_integer_candidate sample_settings 3 10 [1; -1; 2]
      [3 / 2; 5 / 2; 37 / 10] [0; 3]%Z
    = Raise IndexError.
Proof.
  apply (get_integer_candidate_rejects sample_settings 3 10 [1; -1; 2]
           [3 / 2; 5 / 2; 37 / 10] [0; 3]%Z); try reflexivity.
  exists 3%Z. split; [simpl; tauto|simpl; lia].
Defined.

Lemma Rfloor_IZR (z : Z) : Rfloor (IZR z) = IZR z.
Proof. apply Rfloor_eq. lra. Qed.

Lemma Rceil_IZR (z : Z) : Rceil (IZR z) = IZR z.
Proof. apply Rceil_eq. lra. Qed.

Lemma Rfloor_ge_int (z : Z) (x : R) : IZR z <= x -> IZR z <= Rfloor x.
Proof.
  intros H. destruct (Rfloor_is_floor x) as (f & -> & Hf).
  apply IZR_le.
  assert (Hlt : IZR z < IZR (f + 1)) by (rewrite plus_IZR; lra).
  apply lt_IZR in Hlt. lia.
Qed.

Lemma Rceil_le_int (z : Z) (x : R) : x <= IZR z -> Rceil x <= IZR z.
Proof.
  intros H. destruct (Rceil_is_ceil x) as (c & -> & Hc).
  apply IZR_le.
  assert (Hlt : IZR (c - 1) < IZR z) by (rewrite minus_IZR; lra).
  apply lt_IZR in Hlt. lia.
Qed.

Lemma round_at_integer (h point : vec) (j : nat) :
  exists z : Z, round_at h point j = IZR z.
Proof.
  unfold round_at. destruct (Rgeb (nth j h 0) 0).
  - now exists (Int_part (nth j point 0)).
  - exists (Z.opp (Int_part (- nth j point 0))). unfold Rceil.
    now rewrite opp_IZR.
Qed.

Lemma round_at_near (h point : vec) (j : nat) :
  nth j point 0 - 1 < round_at h point j < nth j point 0 + 1.
Proof.
  unfold round_at. destruct (Rgeb (nth j h 0) 0).
  - destruct (Rfloor_is_floor (nth j point 0)) as (z & -> & Hz). lra.
  - destruct (Rceil_is_ceil (nth j point 0)) as (z & -> & Hz). lra.
Qed.

(** X8: negative indices count from the end.  For indices in
    [-n, n), the coordinate an index denotes is floored or ceiled by
    the sign of its gradient entry, and the coordinates no index
    denotes are left alone. *)
Theorem get_integer_candidate_wraps_indices (settings : RbfoptSettings)
    (n k : nat) (h point : vec) (integer_vars : list Z) :
  length point = n -> length h = n ->
  (forall i, In i integer_vars -> (- Z.of_nat n <= i < Z.of_nat n)%Z) ->
  exists (rounded : vec) (model_delta : R),
    get_integer_candidate settings n k h point integer_vars
      = Ok (rounded, model_delta) /\
    length rounded = n /\
    (forall i, In i integer_vars ->
       let j := wrap n i in
       (j < n)%nat /\
       Z.of_nat j = (if (i <? 0)%Z then i + Z.of_nat n else i)%Z /\
       (nth j h 0 >= 0 -> nth j rounded 0 = Rfloor (nth j point 0)) /\
       (nth j h 0 < 0 -> nth j rounded 0 = Rceil (nth j point 0))) /\
    (forall j, (j < n)%nat ->
       (forall i, In i integer_vars -> wrap n i <> j) ->
       nth j rounded 0 = nth j point 0).
Proof.
  intros Hp Hh Hidx.
  destruct (get_integer_candidate_wraps settings n k h point integer_vars
              Hp Hh Hidx) as (r & Er & Hlen & Hr).
  exists r, (dot h (vsub point r)).
  split; [exact Er|]. split; [exact Hlen|]. split.
  - intros i Hi j.
    destruct (index_valid n i (Hidx i Hi)) as (_ & Hj). fold j in Hj.
    split; [exact Hj|]. split.
    { unfold j, wrap. assert (Hv := Hidx i Hi).
      destruct (i <? 0)%Z eqn:E; [apply Z.ltb_lt in E|apply Z.ltb_ge in E];
        lia. }
    destruct (Hr j Hj) as (Hin & _).
    assert (Hmem : In j (map (wrap n) integer_vars)).
    { apply in_map_iff. now exists i. }
    rewrite (Hin Hmem). unfold round_at. split; intros Hg.
    + apply Rgeb_true in Hg. now rewrite Hg.
    + assert (E : Rgeb (nth j h 0) 0 = false) by (apply Rgeb_false; lra).
      now rewrite E.
  - intros j Hj Hnone. apply (Hr j Hj).
    intros Hin. apply in_map_iff in Hin. destruct Hin as (i & Ei & Hi).
    exact (Hnone i Hi Ei).
Qed.

Lemma integer_vars_last (i : Z) :
  In i [-1]%Z -> (- Z.of_nat 3 <= i < Z.of_nat 3)%Z.
Proof. simpl. intros [<-|[]]. lia. Qed.

Lemma get_integer_candidate_wraps_indices_witness :
  exists (rounded : vec) (model_delta : R),
    get_integer_candidate sample_settings 3 10 [1; -1; 2]
        [3 / 2; 5 / 2; 37 / 10] [-1]%Z
      = Ok (rounded, model_delta) /\
    nth 2 rounded 0 = Rfloor (37 / 10) /\
    nth 0 rounded 0 = 3 / 2.
Proof.
  destruct (get_integer_candidate_wraps_indices sample_settings 3 10
              [1; -1; 2] [3 / 2; 5 / 2; 37 / 10] [-1]%Z eq_refl eq_refl
              integer_vars_last)
    as (r & d & E & _ & Hin & Hout).
  exists r, d. split; [exact E|]. split.
  - destruct (Hin (-1)%Z (or_introl eq_refl)) as (_ & _ & Hfl & _).
    apply Hfl. simpl. lra.
  - apply (Hout 0%nat); [lia|].
    intros i [<-|[]]. discriminate.
Defined.

(** X9: rounding is idempotent: rounding the rounded point again
    returns it unchanged, with model difference zero. *)
Theorem get_integer_candidate_idempotent (settings : RbfoptSettings)
    (n k : nat) (h point : vec) (integer_vars : list Z) :
  length point = n -> length h = n ->
  (forall i, In i integer_vars -> (- Z.of_nat n <= i < Z.of_nat n)%Z) ->
  exists (rounded : vec) (model_delta : R),
    get_integer_candidate settings n k h point integer_vars
      = Ok (rounded, model_delta) /\
    get_integer_candidate settings n k h rounded integer_vars
      = Ok (rounded, 0).
Proof.
  intros Hp Hh Hidx.
  destruct (get_integer_candidate_wraps settings n k h point integer_vars
              Hp Hh Hidx) as (r & Er & Hlen & Hr).
  destruct (get_integer_candidate_wraps settings n k h r integer_vars
              Hlen Hh Hidx) as (r' & Er' & Hlen' & Hr').
  exists r, (dot h (vsub point r)). split; [exact Er|].
  assert (E : r' = r).
  { apply (nth_ext _ _ 0 0); [congruence|].
    intros j Hj. rewrite Hlen' in Hj.
    destruct (Hr j Hj) as (Hin & _). destruct (Hr' j Hj) as (Hin' & Hout').
    destruct (in_dec Nat.eq_dec j (map (wrap n) integer_vars)) as [Hd|Hd].
    - rewrite (Hin' Hd). unfold round_at at 1. rewrite (Hin Hd).
      destruct (round_at_integer h point j) as (z & ->).
      destruct (Rgeb (nth j h 0) 0); [apply Rfloor_IZR|apply Rceil_IZR].
    - now apply Hout'. }
  rewrite Er', E. do 2 f_equal. apply vsub_self_dot. congruence.
Qed.

Lemma get_integer_candidate_idempotent_witness :
  exists (rounded : vec) (model_delta : R),
    get_integer_candidate sample_settings 3 10 [1; -1; 2]
        [3 / 2; 5 / 2; 37 / 10] [0; 1]%Z
      = Ok (rounded, model_delta) /\
    get_integer_candidate sample_settings 3 10 [1; -1; 2] rounded [0; 1]%Z
      = Ok (rounded, 0).
Proof.
  apply (get_integer_candidate_idempotent sample_settings 3 10 [1; -1; 2]
           [3 / 2; 5 / 2; 37 / 10] [0; 1]%Z eq_refl eq_refl).
  intros i Hi. apply integer_vars_0_1 in Hi. lia.
Defined.

(** X10: bounds with integer values on the integer coordinates survive
    the rounding: a point inside such bounds is rounded to a point
    inside them, with no clipping. *)
Theorem get_integer_candidate_keeps_bounds (settings : RbfoptSettings)
    (n k : nat) (h point var_lower var_upper : vec) (integer_vars : list Z) :
  length point = n -> length h = n ->
  (forall i, In i integer_vars -> (- Z.of_nat n <= i < Z.of_nat n)%Z) ->
  (forall j, (j < n)%nat ->
     nth j var_lower 0 <= nth j point 0 <= nth j var_upper 0) ->
  (forall i, In i integer_vars ->
     exists zl zu : Z,
       nth (wrap n i) var_lower 0 = IZR zl /\
       nth (wrap n i) var_upper 0 = IZR zu) ->
  exists (rounded : vec) (model_delta : R),
    get_integer_candidate settings n k h point integer_vars
      = Ok (rounded, model_delta) /\
    forall j, (j < n)%nat ->
      nth j var_lower 0 <= nth j rounded 0 <= nth j var_upper 0.
Proof.
  intros Hp Hh Hidx Hbox Hint.
  destruct (get_integer_candidate_wraps settings n k h point integer_vars
              Hp Hh Hidx) as (r & Er & Hlen & Hr).
  exists r, (dot h (vsub point r)). split; [exact Er|].
  intros j Hj. destruct (Hr j Hj) as (Hin & Hout).
  assert (Hb := Hbox j Hj).
  destruct (in_dec Nat.eq_dec j (map (wrap n) integer_vars)) as [Hd|Hd].
  - rewrite (Hin Hd).
    apply in_map_iff in Hd. destruct Hd as (i & Ei & Hi).
    destruct (Hint i Hi) as (zl & zu & El & Eu).
    rewrite Ei in El, Eu. rewrite El, Eu in *.
    unfold round_at. destruct (Rgeb (nth j h 0) 0).
    + split; [apply Rfloor_ge_int; lra|].
      destruct (Rfloor_is_floor (nth j point 0)) as (z & -> & Hz). lra.
    + split; [|apply Rceil_le_int; lra].
      destruct (Rceil_is_ceil (nth j point 0)) as (z & -> & Hz). lra.
  - now rewrite (Hout Hd).
Qed.

Lemma box_unit_3 (j : nat) :
  (j < 3)%nat ->
  nth j [1; 2; 3] 0 <= nth j [3 / 2; 5 / 2; 37 / 10] 0 <= nth j [2; 3; 4] 0.
Proof.
  intros Hj. destruct j as [|[|[|j]]]; simpl; try lra; lia.
Qed.

Lemma integral_bounds_0_1 (i : Z) :
  In i [0; 1]%Z ->
  exists zl zu : Z,
    nth (wrap 3 i) [1; 2; 3] 0 = IZR zl /\
    nth (wrap 3 i) [2; 3; 4] 0 = IZR zu.
Proof.
  simpl. intros [<-|[<-|[]]].
  - now exists 1%Z, 2%Z.
  - now exists 2%Z, 3%Z.
Qed.

Lemma valid_0_1 (i : Z) :
  In i [0; 1]%Z -> (- Z.of_nat 3 <= i < Z.of_nat 3)%Z.
Proof. intros Hi. apply integer_vars_0_1 in Hi. lia. Qed.

Lemma get_integer_candidate_keeps_bounds_witness :
  exists (rounded : vec) (model_delta : R),
    get_integer_candidate sample_settings 3 10 [1; -1; 2]
        [3 / 2; 5 / 2; 37 / 10] [0; 1]%Z
      = Ok (rounded, model_delta) /\
    forall j, (j < 3)%nat ->
      nth j [1; 2; 3] 0 <= nth j rounded 0 <= nth j [2; 3; 4] 0.
Proof.
  exact (get_integer_candidate_keeps_bounds sample_settings 3 10 [1; -1; 2]
           [3 / 2; 5 / 2; 37 / 10] [1; 2; 3] [2; 3; 4] [0; 1]%Z
           eq_refl eq_refl valid_0_1 box_unit_3 integral_bounds_0_1).
Defined.

(** X11: every coordinate an index denotes comes back as an integer,
    and no coordinate moves by 1 or more. *)
Theorem get_integer_candidate_integral (settings : RbfoptSettings)
    (n k : nat) (h point : vec) (integer_vars : list Z) :
  length point = n -> length h = n ->
  (forall i, In i integer_vars -> (- Z.of_nat n <= i < Z.of_nat n)%Z) ->
  exists (rounded : vec) (model_delta : R),
    get_integer_candidate settings n k h point integer_vars
      = Ok (rounded, model_delta) /\
    (forall i, In i integer_vars ->
       exists z : Z, nth (wrap n i) rounded 0 = IZR z) /\
    (forall j, (j < n)%nat ->
       nth j point 0 - 1 < nth j rounded 0 < nth j point 0 + 1).
Proof.
  intros Hp Hh Hidx.
  destruct (get_integer_candidate_wraps settings n k h point integer_vars
              Hp Hh Hidx) as (r & Er & Hlen & Hr).
  exists r, (dot h (vsub point r)). split; [exact Er|]. split.
  - intros i Hi.
    destruct (index_valid n i (Hidx i Hi)) as (_ & Hj).
    destruct (Hr _ Hj) as (Hin & _).
    rewrite Hin; [apply round_at_integer|].
    apply in_map_iff. now exists i.
  - intros j Hj. destruct (Hr j Hj) as (Hin & Hout).
    destruct (in_dec Nat.eq_dec j (map (wrap n) integer_vars)) as [Hd|Hd].
    + rewrite (Hin Hd). apply round_at_near.
    + rewrite (Hout Hd). lra.
Qed.

Lemma get_integer_candidate_integral_witness :
  exists (rounded : vec) (model_delta : R),
    get_integer_candidate sample_settings 3 10 [1; -1; 2]
        [3 / 2; 5 / 2; 37 / 10] [0; 1]%Z
      = Ok (rounded, model_delta) /\
    (forall i, In i [0; 1]%Z ->
       exists z : Z, nth (wrap 3 i) rounded 0 = IZR z) /\
    (forall j, (j < 3)%nat ->
       nth j [3 / 2; 5 / 2; 37 / 10] 0 - 1 < nth j rounded 0
         < nth j [3 / 2; 5 / 2; 37 / 10] 0 + 1).
Proof.
  exact (get_integer_candidate_integral sample_settings 3 10 [1; -1; 2]
           [3 / 2; 5 / 2; 37 / 10] [0; 1]%Z eq_refl eq_refl valid_0_1).
Defined.

(** X12: a point whose integer coordinates are integers already is
    returned as it is, with model difference zero, whatever the
    gradient. *)
Theorem get_integer_candidate_fixed_point (settings : RbfoptSettings)
    (n k : nat) (h point : vec) (integer_vars : list Z) :
  length point = n -> length h = n ->
  (forall i, In i integer_vars -> (- Z.of_nat n <= i < Z.of_nat n)%Z) ->
  (forall i, In i integer_vars ->
     exists z : Z, nth (wrap n i) point 0 = IZR z) ->
  get_integer_candidate settings n k h point integer_vars = Ok (point, 0).
Proof.
  intros Hp Hh Hidx Hint.
  destruct (get_integer_candidate_wraps settings n k h point integer_vars
              Hp Hh Hidx) as (r & Er & Hlen & Hr).
  assert (E : r = point).
  { apply (nth_ext _ _ 0 0); [congruence|].
    intros j Hj. rewrite Hlen in Hj.
    destruct (Hr j Hj) as (Hin & Hout).
    destruct (in_dec Nat.eq_dec j (map (wrap n) integer_vars)) as [Hd|Hd].
    - rewrite (Hin Hd).
      apply in_map_iff in Hd. destruct Hd as (i & Ei & Hi).
      destruct (Hint i Hi) as (z & Ez). rewrite Ei in Ez.
      unfold round_at. rewrite Ez.
      destruct (Rgeb (nth j h 0) 0); [apply Rfloor_IZR|apply Rceil_IZR].
    - now apply Hout. }
  rewrite Er, E. do 2 f_equal. apply vsub_self_dot. congruence.
Qed.

Lemma integral_point_0_1 (i : Z) :
  In i [0; 1]%Z -> exists z : Z, nth (wrap 3 i) [1; 3; 37 / 10] 0 = IZR z.
Proof.
  simpl. intros [<-|[<-|[]]].
  - now exists 1%Z.
  - now exists 3%Z.
Qed.

Lemma get_integer_candidate_fixed_point_witness :
  get_integer_candidate sample_settings 3 10 [1; -1; 2] [1; 3; 37 / 10]
      [0; 1]%Z
    = Ok ([1; 3; 37 / 10], 0).
Proof.
  exact (get_integer_candidate_fixed_point sample_settings 3 10 [1; -1; 2]
           [1; 3; 37 / 10] [0; 1]%Z eq_refl eq_refl valid_0_1
           integral_point_0_1).
Defined.

(** ** [update_trust_region_radius]: order of the checks, monotonicity *)

(** X13: a negative radius fails the assertion before anything is
    divided, so also when the model difference is zero. *)
Theorem update_trust_region_radius_rejects (settings : RbfoptSettings)
    (tr_radius : R) (model_obj_diff real_obj_diff : scalar) :
  tr_radius < 0 ->
  update_trust_region_radius settings tr_radius model_obj_diff real_obj_diff
    = Raise AssertionError.
Proof.
  intros Hr. unfold update_trust_region_radius, assert.
  destruct (Rgeb tr_radius 0) eqn:E; [|reflexivity].
  apply Rgeb_true in E. lra.
Qed.

Lemma update_trust_region_radius_rejects_witness :
  update_trust_region_radius sample_settings (-1) (PyFloat 0) (PyFloat 1)
    = Raise AssertionError.
Proof.
  apply update_trust_region_radius_rejects. lra.
Defined.

Lemma update_finite (settings : RbfoptSettings) (tr_radius : R)
    (model_obj_diff real_obj_diff : scalar) :
  0 <= tr_radius -> value model_obj_diff <> 0 ->
  let d := value real_obj_diff / value model_obj_diff in
  update_trust_region_radius settings tr_radius model_obj_diff real_obj_diff
    = Ok (if Rleb d (tr_acceptable_decrease_shrink settings)
          then tr_radius * 0.5
          else if Rgeb d (tr_acceptable_decrease_enlarge settings)
               then tr_radius * 2 else tr_radius,
          Rgeb d (tr_acceptable_decrease_move settings)).
Proof.
  intros Hr Hm d. unfold update_trust_region_radius.
  rewrite (assert_radius _ Hr), (truediv_nonzero _ _ Hm). reflexivity.
Qed.

(** X14: a better ratio never gives a smaller radius and never turns an
    accepted step into a rejected one. *)
Theorem update_trust_region_radius_monotone (settings : RbfoptSettings)
    (tr_radius : R) (model1 real1 model2 real2 : scalar) :
  0 <= tr_radius ->
  value model1 <> 0 -> value model2 <> 0 ->
  value real1 / value model1 <= value real2 / value model2 ->
  exists (radius1 radius2 : R) (accept1 accept2 : bool),
    update_trust_region_radius settings tr_radius model1 real1
      = Ok (radius1, accept1) /\
    update_trust_region_radius settings tr_radius model2 real2
      = Ok (radius2, accept2) /\
    radius1 <= radius2 /\
    (accept1 = true -> accept2 = true).
Proof.
  intros Hr Hm1 Hm2 Hle.
  rewrite (update_finite settings tr_radius model1 real1 Hr Hm1).
  rewrite (update_finite settings tr_radius model2 real2 Hr Hm2).
  set (d1 := value real1 / value model1) in *.
  set (d2 := value real2 / value model2) in *.
  eexists; eexists; eexists; eexists.
  split; [reflexivity|]. split; [reflexivity|]. split.
  - unfold Rgeb, Rleb.
    repeat match goal with
    | |- context [Rle_dec ?a ?b] => destruct (Rle_dec a b)
    end; lra.
  - intros Ha. apply Rgeb_true in Ha. apply Rgeb_true. lra.
Qed.

Lemma update_trust_region_radius_monotone_witness :
  exists (radius1 radius2 : R) (accept1 accept2 : bool),
    update_trust_region_radius sample_settings 1 (PyFloat 10) (PyFloat 1)
      = Ok (radius1, accept1) /\
    update_trust_region_radius sample_settings 1 (PyFloat 10) (PyFloat 7)
      = Ok (radius2, accept2) /\
    radius1 <= radius2 /\
    (accept1 = true -> accept2 = true).
Proof.
  apply update_trust_region_radius_monotone; simpl; lra.
Defined.

(** X15: [test_update_trust_region_radius] runs to the end exactly for
    settings whose shrink threshold is below the enlarge threshold plus
    1/10000; for all others its second check fails. *)
Theorem test_update_trust_region_radius_passes (settings : RbfoptSettings) :
  (tr_acceptable_decrease_shrink settings
     < tr_acceptable_decrease_enlarge settings + 1 / 10000 ->
   TestRefinement.test_update_trust_region_radius settings = Ok tt) /\
  (~ tr_acceptable_decrease_shrink settings
       < tr_acceptable_decrease_enlarge settings + 1 / 10000 ->
   TestRefinement.test_update_trust_region_radius settings
     = Raise AssertionError).
Proof.
  unfold TestRefinement.test_update_trust_region_radius.
  assert (H1 : 0 <= 1) by lra.
  assert (H10 : forall x, value (PyFloat x) = x) by reflexivity.
  assert (Hm : value (PyFloat 10) <> 0) by (simpl; lra).
  rewrite !(update_finite settings 1 (PyFloat 10) _ H1 Hm).
  rewrite !H10. cbn [bind fst snd].
  set (s := tr_acceptable_decrease_shrink settings).
  set (e := tr_acceptable_decrease_enlarge settings).
  set (m := tr_acceptable_decrease_move settings).
  replace (Rleb ((10 * s - 1 / 1000) / 10) s) with true
    by (symmetry; apply Rleb_true; lra).
  replace (Rltb (1 * 0.5) 1) with true by (symmetry; apply Rltb_true; lra).
  replace (Rgeb ((10 * e + 1 / 1000) / 10) e) with true
    by (symmetry; apply Rgeb_true; lra).
  replace (Rgeb ((10 * m + 1 / 1000) / 10) m) with true
    by (symmetry; apply Rgeb_true; lra).
  cbn [assert bind].
  split; intros H.
  - replace (Rleb ((10 * e + 1 / 1000) / 10) s) with false
      by (symmetry; apply Rleb_false; lra).
    replace (Rgtb (1 * 2) 1) with true by (symmetry; apply Rgtb_true; lra).
    reflexivity.
  - replace (Rleb ((10 * e + 1 / 1000) / 10) s) with true
      by (symmetry; apply Rleb_true; lra).
    replace (Rgtb (1 * 0.5) 1) with false; [reflexivity|].
    unfold Rgtb, Rltb. destruct (Rlt_dec 1 (1 * 0.5)); [lra|reflexivity].
Qed.

Lemma test_update_trust_region_radius_passes_witness :
  TestRefinement.test_update_trust_region_radius sample_settings = Ok tt.
Proof.
  apply (test_update_trust_region_radius_passes sample_settings).
  simpl. lra.
Defined.

(** ** Distances *)

Lemma dot_vsub_sym (u v : vec) :
  dot (vsub u v) (vsub u v) = dot (vsub v u) (vsub v u).
Proof.
  revert v. induction u as [|a u IH]; intros [|b v]; try reflexivity.
  unfold vsub, map2 in *. simpl. rewrite !dot_cons, IH. lra.
Qed.

Lemma euclidean_sym (u v : vec) : euclidean u v = euclidean v u.
Proof. unfold euclidean, norm. now rewrite dot_vsub_sym. Qed.

Lemma vsub_zero (u v : vec) :
  length u = length v ->
  Forall (fun x => x = 0) (vsub u v) -> u = v.
Proof.
  revert v. induction u as [|a u IH]; intros [|b v] Hl H;
    try discriminate; [reflexivity|].
  unfold vsub, map2 in *. simpl in *.
  inversion H as [|? ? Ha Hw]; subst.
  f_equal; [lra|]. apply IH; [lia|exact Hw].
Qed.

Lemma euclidean_zero (u v : vec) :
  length u = length v -> (euclidean u v = 0 <-> u = v).
Proof.
  intros Hl. unfold euclidean. rewrite norm_zero. split.
  - now apply vsub_zero.
  - intros ->. clear Hl.
    induction v as [|a v IH]; unfold vsub, map2 in *; simpl;
      constructor; [lra|exact IH].
Qed.

(** X16: the distance function of the tests is the distance
    [init_trust_region] sorts by; it is symmetric and non-negative, and
    between points of the same dimension it is zero only from a point
    to itself. *)
Theorem test_dist_metric (a b : vec) :
  TestRefinement.dist a b = euclidean a b /\
  TestRefinement.dist a b = TestRefinement.dist b a /\
  0 <= TestRefinement.dist a b /\
  (length a = length b -> (TestRefinement.dist a b = 0 <-> a = b)).
Proof.
  assert (E : forall u v, TestRefinement.dist u v = euclidean u v)
    by reflexivity.
  rewrite !E. split; [reflexivity|]. split; [apply euclidean_sym|].
  split; [apply euclidean_nonneg|apply euclidean_zero].
Qed.

Lemma test_dist_metric_witness :
  TestRefinement.dist [3; 4] [3; 4] = 0.
Proof.
  destruct (test_dist_metric [3; 4] [3; 4]) as (_ & _ & _ & H).
  now apply (H eq_refl).
Defined.

(** ** [init_trust_region]: errors, the center, the size of the radius *)

(** X17: a node count that does not match, fewer than two nodes, or a
    center of the wrong length fail an assertion. *)
Theorem init_trust_region_rejects (settings : RbfoptSettings) (n k : nat)
    (node_pos : list vec) (center : vec) :
  length node_pos <> k \/ (k < 2)%nat \/ length center <> n ->
  init_trust_region settings n k node_pos center = Raise AssertionError.
Proof.
  intros H. unfold init_trust_region, assert.
  destruct (Nat.eqb_spec (length node_pos) k) as [E1|N1]; [|reflexivity].
  destruct (Nat.leb_spec 2 k) as [E2|N2]; [|reflexivity].
  destruct (Nat.eqb_spec (length center) n) as [E3|N3]; [|reflexivity].
  exfalso. destruct H as [H|[H|H]]; [contradiction|lia|contradiction].
Qed.

Lemma init_trust_region_rejects_witness :
  init_trust_region sample_settings 1 1 [[0]] [0] = Raise AssertionError.
Proof.
  apply init_trust_region_rejects. right; left. lia.
Defined.

Lemma sorted_head_first {A : Type} (R : A -> A -> Prop) (x y : A)
    (l : list A) :
  StronglySorted R (x :: l) -> In y (x :: l) -> y = x \/ R x y.
Proof.
  intros Hs [->|Hy]; [now left|right].
  inversion Hs as [|? ? _ Hx]; subst.
  rewrite Forall_forall in Hx. now apply Hx.
Qed.

(** X18: when the center is one of the nodes, the model set starts
    with the center: its first index is the first node equal to the
    center. *)
Theorem init_trust_region_center_first (settings : RbfoptSettings)
    (n k : nat) (node_pos : list vec) (center : vec) (c : nat) :
  (1 <= n)%nat -> (2 <= k)%nat ->
  length node_pos = k ->
  (forall p, In p node_pos -> length p = n) ->
  length center = n ->
  (c < k)%nat -> nth c node_pos [] = center ->
  exists (first : nat) (others : list nat) (tr_radius : R),
    init_trust_region settings n k node_pos center
      = Ok (first :: others, tr_radius) /\
    nth first node_pos [] = center /\
    (first <= c)%nat /\
    (forall j, (j < first)%nat -> nth j node_pos [] <> center).
Proof.
  intros Hn Hk Hlen Hrows Hc Hck Hnode.
  rewrite init_trust_region_returns by assumption.
  set (dist := fun i => euclidean center (nth i node_pos [])).
  set (order := sort_by dist (seq 0 k)).
  assert (Hperm : Permutation order (seq 0 k)) by apply sort_by_Permutation.
  assert (Hord : StronglySorted (closer dist) order)
    by apply sort_by_sorted, seq_sorted.
  assert (Hin : forall j, (j < k)%nat -> In j order).
  { intros j Hj.
    apply (Permutation_in _ (Permutation_sym Hperm)), in_seq. lia. }
  assert (Hzero : forall j, (j < k)%nat ->
                    (dist j = 0 <-> nth j node_pos [] = center)).
  { intros j Hj. unfold dist. rewrite euclidean_zero.
    - split; congruence.
    - rewrite Hc. symmetry. apply Hrows, nth_In. lia. }
  destruct order as [|f rest] eqn:Eo.
  { exfalso. apply (Hin c Hck). }
  assert (Hfk : (f < k)%nat).
  { assert (H : In f (f :: rest)) by now left.
    apply (Permutation_in _ Hperm), in_seq in H. lia. }
  assert (Hf0 : dist f = 0 /\ (f <= c)%nat).
  { destruct (sorted_head_first _ f c rest Hord (Hin c Hck)) as [->|Hcl].
    - split; [now apply Hzero|lia].
    - assert (Hdc : dist c = 0) by now apply Hzero.
      assert (Hdf : 0 <= dist f) by apply euclidean_nonneg.
      destruct Hcl as [Hlt|[Heq Hlt]]; [lra|]. split; [lra|lia]. }
  destruct Hf0 as (Hf0 & Hfc).
  replace (Nat.min (2 * n + 1) k) with (S (Nat.min (2 * n) (k - 1))) by lia.
  cbn [firstn].
  eexists; eexists; eexists. split; [reflexivity|].
  split; [now apply Hzero|]. split; [exact Hfc|].
  intros j Hj Hnj.
  assert (Hjk : (j < k)%nat) by lia.
  assert (Hdj : dist j = 0) by now apply Hzero.
  destruct (sorted_head_first _ f j rest Hord (Hin j Hjk)) as [->|Hcl];
    [lia|].
  destruct Hcl as [Hlt|[_ Hlt]]; [lra|lia].
Qed.

Lemma init_trust_region_center_first_witness :
  exists (first : nat) (others : list nat) (tr_radius : R),
    init_trust_region sample_settings 1 3 [[0]; [1]; [3]] [1]
      = Ok (first :: others, tr_radius) /\
    nth first [[0]; [1]; [3]] [] = [1] /\
    (first <= 1)%nat /\
    (forall j, (j < first)%nat -> nth j [[0]; [1]; [3]] [] <> [1]).
Proof.
  assert (H1 : (1 <= 1)%nat) by lia.
  assert (H2 : (2 <= 3)%nat) by lia.
  assert (H3 : (1 < 3)%nat) by lia.
  exact (init_trust_region_center_first sample_settings 1 3
           [[0]; [1]; [3]] [1] 1 H1 H2 eq_refl rows_0_1_3 eq_refl H3 eq_refl).
Defined.

Lemma sorted_nth_le (s : vec) (i j : nat) :
  StronglySorted Rle s -> (i <= j)%nat -> (j < length s)%nat ->
  nth i s 0 <= nth j s 0.
Proof.
  intros Hs. revert i j.
  induction Hs as [|x s Hs IH Hx]; intros i j Hij Hj; [simpl in Hj; lia|].
  destruct i as [|i]; destruct j as [|j]; simpl in *; try lia.
  - lra.
  - rewrite Forall_forall in Hx. apply Hx, nth_In. lia.
  - apply IH; lia.
Qed.

(** A percentile of an ascending array lies between its first and its
    last entry. *)
Lemma interpolate_between (s : vec) (q : R) :
  StronglySorted Rle s -> s <> [] -> 0 <= q <= 100 ->
  nth 0 s 0 <= interpolate s q <= nth (length s - 1) s 0.
Proof.
  intros Hs Hne Hq. unfold interpolate.
  assert (Hlen : (1 <= length s)%nat).
  { destruct s; [contradiction|simpl; lia]. }
  set (m := (length s - 1)%nat).
  set (pos := q / 100 * INR m).
  assert (Hm : 0 <= INR m) by apply pos_INR.
  assert (Hpos : 0 <= pos <= INR m) by (unfold pos; split; nra).
  destruct (base_Int_part pos) as (Hlo & Hhi).
  assert (Hz : (0 <= Int_part pos <= Z.of_nat m)%Z).
  { split.
    - assert (H : IZR (-1) < IZR (Int_part pos)) by (simpl; lra).
      apply lt_IZR in H. lia.
    - apply le_IZR. rewrite <- INR_IZR_INZ. lra. }
  set (lo := Z.to_nat (Int_part pos)).
  assert (Elo : INR lo = IZR (Int_part pos)).
  { unfold lo. rewrite INR_IZR_INZ, Z2Nat.id; [reflexivity|lia]. }
  assert (Hlom : (lo <= m)%nat) by (unfold lo; lia).
  set (hi := Nat.min (lo + 1) m).
  assert (Hhim : (lo <= hi <= m)%nat) by (unfold hi; lia).
  assert (H0 : nth 0 s 0 <= nth lo s 0)
    by (apply sorted_nth_le; [exact Hs|lia|unfold m in *; lia]).
  assert (H1 : nth lo s 0 <= nth hi s 0)
    by (apply sorted_nth_le; [exact Hs|lia|unfold m in *; lia]).
  assert (H2 : nth hi s 0 <= nth m s 0)
    by (apply sorted_nth_le; [exact Hs|lia|unfold m in *; lia]).
  rewrite Elo. split; nra.
Qed.

Lemma Rmax_le_compat_l (a b c : R) : a <= b -> Rmax a c <= Rmax b c.
Proof.
  intros H. unfold Rmax.
  destruct (Rle_dec a c); destruct (Rle_dec b c); lra.
Qed.

(** X19: the initial radius is at least the distance to the second
    closest node and [min_tr_radius * 16], and at most the larger of
    [min_tr_radius * 16] and the distance to the farthest node of the
    model set. *)
Theorem init_trust_region_radius_bounds (settings : RbfoptSettings)
    (n k : nat) (node_pos : list vec) (center : vec) :
  (1 <= n)%nat -> (2 <= k)%nat ->
  length node_pos = k ->
  (forall p, In p node_pos -> length p = n) ->
  length center = n ->
  let dist := fun i => euclidean center (nth i node_pos []) in
  exists (model_set : list nat) (tr_radius : R),
    init_trust_region settings n k node_pos center
      = Ok (model_set, tr_radius) /\
    dist (nth 1 model_set 0%nat) <= tr_radius /\
    min_tr_radius settings * 16 <= tr_radius /\
    tr_radius
      <= Rmax (dist (nth (length model_set - 1) model_set 0%nat))
              (min_tr_radius settings * 16).
Proof.
  intros Hn Hk Hlen Hrows Hc dist.
  eexists; eexists. split.
  { now apply init_trust_region_returns. }
  fold dist.
  set (model_set := firstn (Nat.min (2 * n + 1) k) (sort_by dist (seq 0 k))).
  assert (Hms : length model_set = Nat.min (2 * n + 1) k).
  { unfold model_set. rewrite length_firstn,
      (Permutation_length (sort_by_Permutation _ _)), length_seq. lia. }
  set (sample := map dist (tl model_set)).
  assert (Hsorted : StronglySorted Rle sample).
  { apply map_key_sorted, tl_sorted. unfold model_set.
    apply firstn_sorted, sort_by_sorted, seq_sorted. }
  destruct model_set as [|i0 [|i1 rest]] eqn:Em;
    try (simpl in Hms; lia).
  assert (Hne : sample <> []) by (unfold sample; simpl; discriminate).
  assert (Hq : 0 <= 0.25 <= 100) by lra.
  destruct (interpolate_between sample 0.25 Hsorted Hne Hq) as (Hlo & Hhi).
  assert (E0 : nth 0 sample 0 = dist i1) by reflexivity.
  assert (E1 : nth (length sample - 1) sample 0
               = dist (nth (length (i0 :: i1 :: rest) - 1)
                           (i0 :: i1 :: rest) 0%nat)).
  { unfold sample. cbn [tl]. rewrite length_map.
    replace (length (i1 :: rest) - 1)%nat with (length rest)
      by (simpl; lia).
    replace (length (i0 :: i1 :: rest) - 1)%nat with (S (length rest))
      by (simpl; lia).
    change (nth (S (length rest)) (i0 :: i1 :: rest) 0%nat)
      with (nth (length rest) (i1 :: rest) 0%nat).
    apply (nth_map_in dist (i1 :: rest) (length rest) 0%nat 0).
    simpl. lia. }
  rewrite E0 in Hlo. rewrite E1 in Hhi.
  cbn [nth].
  assert (Ha := Rmax_l (interpolate sample 0.25) (min_tr_radius settings * 16)).
  assert (Hb := Rmax_r (interpolate sample 0.25) (min_tr_radius settings * 16)).
  split; [lra|]. split; [lra|].
  now apply Rmax_le_compat_l.
Qed.

Lemma init_trust_region_radius_bounds_witness :
  let dist := fun i => euclidean [0] (nth i [[0]; [1]; [3]] []) in
  exists (model_set : list nat) (tr_radius : R),
    init_trust_region sample_settings 1 3 [[0]; [1]; [3]] [0]
      = Ok (model_set, tr_radius) /\
    dist (nth 1 model_set 0%nat) <= tr_radius /\
    min_tr_radius sample_settings * 16 <= tr_radius /\
    tr_radius
      <= Rmax (dist (nth (length model_set - 1) model_set 0%nat))
              (min_tr_radius sample_settings * 16).
Proof.
  assert (H1 : (1 <= 1)%nat) by lia.
  assert (H2 : (2 <= 3)%nat) by lia.
  exact (init_trust_region_radius_bounds sample_settings 1 3
           [[0]; [1]; [3]] [0] H1 H2 eq_refl rows_0_1_3 eq_refl).
Defined.

(** X20: with at most [2n + 1] nodes every node is in the model set:
    the model set is a permutation of all the indices. *)
Theorem init_trust_region_keeps_all (settings : RbfoptSettings)
    (n k : nat) (node_pos : list vec) (center : vec) :
  (1 <= n)%nat -> (2 <= k)%nat -> (k <= 2 * n + 1)%nat ->
  length node_pos = k ->
  (forall p, In p node_pos -> length p = n) ->
  length center = n ->
  exists (model_set : list nat) (tr_radius : R),
    init_trust_region settings n k node_pos center
      = Ok (model_set, tr_radius) /\
    Permutation model_set (seq 0 k).
Proof.
  intros Hn Hk Hsmall Hlen Hrows Hc.
  eexists; eexists. split.
  { now apply init_trust_region_returns. }
  set (dist := fun i => euclidean center (nth i node_pos [])).
  rewrite firstn_all2.
  - apply sort_by_Permutation.
  - rewrite (Permutation_length (sort_by_Permutation _ _)), length_seq. lia.
Qed.

Lemma init_trust_region_keeps_all_witness :
  exists (model_set : list nat) (tr_radius : R),
    init_trust_region sample_settings 1 3 [[0]; [1]; [3]] [0]
      = Ok (model_set, tr_radius) /\
    Permutation model_set (seq 0 3).
Proof.
  assert (H1 : (1 <= 1)%nat) by lia.
  assert (H2 : (2 <= 3)%nat) by lia.
  assert (H3 : (3 <= 2 * 1 + 1)%nat) by lia.
  exact (init_trust_region_keeps_all sample_settings 1 3
           [[0]; [1]; [3]] [0] H1 H2 H3 eq_refl rows_0_1_3 eq_refl).
Defined.

Lemma length_vadd (u s : vec) :
  length u = length s -> length (vadd u s) = length s.
Proof. intros H. unfold vadd. rewrite length_map2. lia. Qed.

Lemma vsub_vadd (u v s : vec) :
  length u = length s -> length v = length s ->
  vsub (vadd u s) (vadd v s) = vsub u v.
Proof.
  revert v s. induction u as [|a u IH]; intros [|b v] [|c s] Hu Hv;
    try discriminate; [reflexivity|].
  unfold vsub, vadd, map2 in *. simpl. f_equal; [lra|].
  apply IH; simpl in *; lia.
Qed.

Lemma euclidean_vadd (u v s : vec) :
  length u = length s -> length v = length s ->
  euclidean (vadd u s) (vadd v s) = euclidean u v.
Proof.
  intros Hu Hv. unfold euclidean. now rewrite vsub_vadd.
Qed.

(** X21: the result depends on the nodes and the center through their
    distances only: moving all nodes and the center by the same vector
    changes neither the model set nor the radius. *)
Theorem init_trust_region_translation (settings : RbfoptSettings)
    (n k : nat) (node_pos : list vec) (center shift : vec) :
  (forall p, In p node_pos -> length p = n) ->
  length center = n -> length shift = n ->
  init_trust_region settings n k
      (map (fun p => vadd p shift) node_pos) (vadd center shift)
    = init_trust_region settings n k node_pos center.
Proof.
  intros Hrows Hc Hs. unfold init_trust_region.
  rewrite length_map, length_vadd by congruence. rewrite Hs, Hc.
  destruct (assert (length node_pos =? k)%nat); [|reflexivity|reflexivity].
  cbn [bind].
  destruct (assert (2 <=? k)%nat); [|reflexivity|reflexivity].
  cbn [bind].
  destruct (assert (n =? n)%nat); [|reflexivity|reflexivity].
  cbn [bind].
  rewrite !cdist_row_returns.
  - rewrite map_map.
    replace (map (fun p => euclidean (vadd center shift) (vadd p shift))
                 node_pos)
      with (map (euclidean center) node_pos); [reflexivity|].
    apply map_ext_in. intros p Hp. symmetry.
    apply euclidean_vadd; [congruence|].
    rewrite (Hrows p Hp). congruence.
  - intros p Hp. rewrite (Hrows p Hp). congruence.
  - intros p Hp. apply in_map_iff in Hp. destruct Hp as (p0 & <- & Hp0).
    rewrite !length_vadd; [reflexivity|congruence|].
    rewrite (Hrows p0 Hp0). congruence.
Qed.

Lemma init_trust_region_translation_witness :
  init_trust_region sample_settings 1 3
      (map (fun p => vadd p [7]) [[0]; [1]; [3]]) (vadd [0] [7])
    = init_trust_region sample_settings 1 3 [[0]; [1]; [3]] [0].
Proof.
  exact (init_trust_region_translation sample_settings 1 3
           [[0]; [1]; [3]] [0] [7] rows_0_1_3 eq_refl eq_refl).
Defined.

(** X22: the size [test_init_trust_region] expects, [min(k, n + 1)],
    is the size of the model set only while [k <= n + 1]; with more
    nodes the model set is larger than the test expects. *)
Theorem test_init_trust_region_size (settings : RbfoptSettings)
    (n k : nat) (node_pos : list vec) (center : vec) :
  (1 <= n)%nat -> (2 <= k)%nat ->
  length node_pos = k ->
  (forall p, In p node_pos -> length p = n) ->
  length center = n ->
  exists (model_set : list nat) (tr_radius : R),
    init_trust_region settings n k node_pos center
      = Ok (model_set, tr_radius) /\
    (length model_set = TestRefinement.expected_size n k
       <-> (k <= n + 1)%nat) /\
    (TestRefinement.expected_size n k <= length model_set)%nat.
Proof.
  intros Hn Hk Hlen Hrows Hc.
  eexists; eexists. split.
  { now apply init_trust_region_returns. }
  rewrite length_firstn,
    (Permutation_length (sort_by_Permutation _ _)), length_seq.
  unfold TestRefinement.expected_size. lia.
Qed.

Lemma test_init_trust_region_size_witness :
  exists (model_set : list nat) (tr_radius : R),
    init_trust_region sample_settings 1 3 [[0]; [1]; [3]] [0]
      = Ok (model_set, tr_radius) /\
    (length model_set = TestRefinement.expected_size 1 3
       <-> (3 <= 1 + 1)%nat) /\
    (TestRefinement.expected_size 1 3 <= length model_set)%nat.
Proof.
  assert (H1 : (1 <= 1)%nat) by lia.
  assert (H2 : (2 <= 3)%nat) by lia.
  exact (test_init_trust_region_size sample_settings 1 3
           [[0]; [1]; [3]] [0] H1 H2 eq_refl rows_0_1_3 eq_refl).
Defined.

(** ** [get_linear_model]: what reaches the solver, what reaches the
    caller *)

Lemma take_outcomes {A : Type} (d : A) (u : list A) (idx : list Z) :
  (exists l, take d u idx = Ok l /\ length l = length idx) \/
  take d u idx = Raise IndexError.
Proof.
  induction idx as [|i idx IH]; simpl.
  - left. now exists [].
  - unfold index.
    destruct (_ && _); cbn [bind].
    + destruct IH as [(l & -> & Hl)| -> ]; cbn [bind];
        [left; eexists; split; [reflexivity|simpl; lia]|now right].
    + destruct (_ && _); cbn [bind]; [|now right].
      destruct IH as [(l & -> & Hl)| -> ]; cbn [bind];
        [left; eexists; split; [reflexivity|simpl; lia]|now right].
Qed.

Section LinearModelMore.

Variable lstsq : list vec -> vec -> option vec.

(** X23: node arrays of the wrong length fail an assertion; with
    arrays of the right length, a model-set index outside [-k, k)
    raises [IndexError], whatever the solver would do. *)
Theorem get_linear_model_rejects (settings : RbfoptSettings) (n k : nat)
    (node_pos : list vec) (node_val : vec) (model_set : list Z) :
  (length node_pos <> k \/ length node_val <> k ->
   get_linear_model lstsq settings n k node_pos node_val model_set
     = Raise AssertionError) /\
  (length node_pos = k -> length node_val = k ->
   (exists i, In i model_set /\
              ~ (- Z.of_nat k <= i < Z.of_nat k)%Z) ->
   get_linear_model lstsq settings n k node_pos node_val model_set
     = Raise IndexError).
Proof.
  unfold get_linear_model, assert. split.
  - intros H.
    destruct (Nat.eqb_spec (length node_pos) k) as [E1|N1]; [|reflexivity].
    destruct (Nat.eqb_spec (length node_val) k) as [E2|N2]; [|reflexivity].
    tauto.
  - intros Hp Hv Hbad.
    rewrite Hp, Hv, !Nat.eqb_refl. cbn [bind].
    rewrite take_invalid; [reflexivity|].
    unfold vec in *. now rewrite Hp.
Qed.

(** X24: the outcomes of a call are a model, [AssertionError],
    [IndexError] or [NameError]; [LinAlgError] is not one of them, and
    neither is a non-finite value of the model's own making. *)
Theorem get_linear_model_outcomes (settings : RbfoptSettings) (n k : nat)
    (node_pos : list vec) (node_val : vec) (model_set : list Z) :
  let call :=
    get_linear_model lstsq settings n k node_pos node_val model_set in
  (exists (h : vec) (b : R), call = Ok (h, b) /\ (length h <= n)%nat) \/
  call = Raise AssertionError \/
  call = Raise IndexError \/
  call = Raise NameError.
Proof.
  intros call. subst call. unfold get_linear_model, assert.
  destruct (length node_pos =? k)%nat; [|now right; left].
  destruct (length node_val =? k)%nat; [|now right; left].
  cbn [bind].
  destruct (take_outcomes [] node_pos model_set) as [(rows & -> & _)| -> ];
    [|now right; right; left].
  cbn [bind].
  destruct (take_outcomes 0 node_val model_set) as [(rhs & -> & _)| -> ];
    [|now right; right; left].
  cbn [bind].
  destruct (lstsq _ rhs) as [[|x0 x]|].
  - now right; right; left.
  - left. eexists; eexists. split; [reflexivity|].
    rewrite length_firstn. lia.
  - right; right; right. now rewrite sys_not_bound.
Qed.

End LinearModelMore.

Lemma model_set_0_5 :
  exists i, In i [0; 5]%Z /\ ~ (- Z.of_nat 2 <= i < Z.of_nat 2)%Z.
Proof. exists 5%Z. split; [simpl; tauto|lia]. Qed.

Lemma get_linear_model_rejects_witness :
  get_linear_model (fun _ _ => Some [1; 0]) sample_settings 1 2
      [[0]; [1]] [0; 1] [0; 5]%Z
    = Raise IndexError.
Proof.
  exact (proj2 (get_linear_model_rejects (fun _ _ => Some [1; 0])
                  sample_settings 1 2 [[0]; [1]] [0; 1] [0; 5]%Z)
               eq_refl eq_refl model_set_0_5).
Defined.

(** ** The routines in sequence *)

(** X25: the model set of [init_trust_region] is a valid index array
    for [get_linear_model]: no index is rejected, and the system handed
    to the solver has [min(2n + 1, k)] rows, each the [n] coordinates
    of a node followed by a 1, and as many right-hand sides. *)
Theorem get_linear_model_on_model_set
    (lstsq : list vec -> vec -> option vec) (settings : RbfoptSettings)
    (n k : nat) (node_pos : list vec) (node_val center : vec) :
  (1 <= n)%nat -> (2 <= k)%nat ->
  length node_pos = k -> length node_val = k ->
  (forall p, In p node_pos -> length p = n) ->
  length center = n ->
  exists (model_set : list nat) (tr_radius : R),
    init_trust_region settings n k node_pos center
      = Ok (model_set, tr_radius) /\
    let rows := map (fun i => nth i node_pos [] ++ [1]) model_set in
    let rhs := map (fun i => nth i node_val 0) model_set in
    length rows = Nat.min (2 * n + 1) k /\
    length rhs = Nat.min (2 * n + 1) k /\
    (forall row, In row rows ->
       length row = (n + 1)%nat /\ nth n row 0 = 1) /\
    get_linear_model lstsq settings n k node_pos node_val
        (map Z.of_nat model_set)
      = match lstsq rows rhs with
        | Some (x0 :: x) => Ok (firstn n (x0 :: x), last (x0 :: x) 0)
        | Some [] => Raise IndexError
        | None => Raise NameError
        end.
Proof.
  intros Hn Hk Hlen Hval Hrows Hc.
  eexists; eexists. split.
  { now apply init_trust_region_returns. }
  set (dist := fun i => euclidean center (nth i node_pos [])).
  set (model_set := firstn (Nat.min (2 * n + 1) k) (sort_by dist (seq 0 k))).
  assert (Hms : length model_set = Nat.min (2 * n + 1) k).
  { unfold model_set. rewrite length_firstn,
      (Permutation_length (sort_by_Permutation _ _)), length_seq. lia. }
  assert (Hin : forall i, In i model_set -> (i < k)%nat).
  { intros i Hi. apply In_firstn in Hi.
    apply (Permutation_in _ (sort_by_Permutation _ _)), in_seq in Hi. lia. }
  intros rows rhs.
  split; [unfold rows; now rewrite length_map|].
  split; [unfold rhs; now rewrite length_map|].
  split.
  - intros row Hrow. apply in_map_iff in Hrow.
    destruct Hrow as (i & <- & Hi).
    assert (Hp : length (nth i node_pos []) = n).
    { apply Hrows, nth_In. rewrite Hlen. now apply Hin. }
    split; [rewrite length_app, Hp; reflexivity|].
    rewrite app_nth2 by lia. rewrite Hp, Nat.sub_diag. reflexivity.
  - assert (Hidx : forall i, In i (map Z.of_nat model_set) ->
                     (0 <= i < Z.of_nat k)%Z).
    { intros i Hi. apply in_map_iff in Hi. destruct Hi as (j & <- & Hj).
      apply Hin in Hj. lia. }
    unfold get_linear_model. unfold vec in *.
    rewrite !assert_length by assumption. cbn [bind].
    rewrite take_in_range
      by (intros i Hi; rewrite ?Hlen, ?Hval; now apply Hidx).
    cbn [bind].
    rewrite take_in_range
      by (intros i Hi; rewrite ?Hlen, ?Hval; now apply Hidx).
    cbn [bind]. rewrite !map_map. unfold hstack_ones. rewrite map_map.
    assert (E1 : map (fun x => nth (Z.to_nat (Z.of_nat x)) node_pos [] ++ [1])
                     model_set = rows).
    { apply map_ext. intros i. now rewrite Nat2Z.id. }
    assert (E2 : map (fun x => nth (Z.to_nat (Z.of_nat x)) node_val 0)
                     model_set = rhs).
    { apply map_ext. intros i. now rewrite Nat2Z.id. }
    rewrite E1, E2.
    destruct (lstsq rows rhs) as [[|x0 x]|]; try reflexivity.
Qed.

Lemma get_linear_model_on_model_set_witness :
  exists (model_set : list nat) (tr_radius : R),
    init_trust_region sample_settings 1 3 [[0]; [1]; [3]] [0]
      = Ok (model_set, tr_radius) /\
    get_linear_model (fun _ _ => Some [2; 1]) sample_settings 1 3
        [[0]; [1]; [3]] [1; 3; 7] (map Z.of_nat model_set)
      = Ok ([2], 1).
Proof.
  assert (H1 : (1 <= 1)%nat) by lia.
  assert (H2 : (2 <= 3)%nat) by lia.
  destruct (get_linear_model_on_model_set (fun _ _ => Some [2; 1])
              sample_settings 1 3 [[0]; [1]; [3]] [1; 3; 7] [0]
              H1 H2 eq_refl eq_refl rows_0_1_3 eq_refl)
    as (ms & r & E & _ & _ & _ & Hg).
  exists ms, r. split; [exact E|exact Hg].
Defined.

(** The model difference of the descent step is never negative. *)
Lemma candidate_delta_nonneg (n : nat)
    (var_lower var_upper h start_point : vec) (t : R) :
  length var_lower = n -> length var_upper = n ->
  length start_point = n -> length h = n ->
  (forall i, (i < n)%nat ->
     nth i var_lower 0 <= nth i start_point 0 <= nth i var_upper 0) ->
  0 <= t ->
  let candidate :=
    clip (vsub start_point (vscale t h)) var_lower var_upper in
  length candidate = n /\
  (forall i, (i < n)%nat ->
     nth i var_lower 0 <= nth i candidate 0 <= nth i var_upper 0) /\
  0 <= dot h (vsub start_point candidate).
Proof.
  intros Hl Hu Hs Hh Hbox Ht candidate.
  assert (Hlen : length candidate = n).
  { apply length_clip; try assumption. now apply length_step_from. }
  assert (Hco : forall i, (i < n)%nat ->
            nth i var_lower 0 <= nth i candidate 0 <= nth i var_upper 0 /\
            0 <= nth i h 0 * (nth i start_point 0 - nth i candidate 0)).
  { intros i Hi. unfold candidate.
    rewrite (nth_candidate n) by assumption.
    destruct (clip1_step (nth i start_point 0) (nth i var_lower 0)
                (nth i var_upper 0) t (nth i h 0) (Hbox i Hi) Ht)
      as (H1 & H2 & _).
    split; assumption. }
  split; [exact Hlen|]. split; [intros i Hi; now apply Hco|].
  apply dot_nonneg. intros i Hi _.
  unfold vsub. rewrite (nth_map2 _ _ _ _ 0 0) by lia.
  apply Hco. lia.
Qed.

(** The model difference of the rounding is never negative. *)
Lemma rounding_delta_nonneg (n : nat) (h point rounded : vec)
    (positions : list nat) :
  length point = n -> length h = n -> length rounded = n ->
  (forall j, (j < n)%nat ->
     (In j positions -> nth j rounded 0 = round_at h point j) /\
     (~ In j positions -> nth j rounded 0 = nth j point 0)) ->
  0 <= dot h (vsub point rounded).
Proof.
  intros Hp Hh Hr Hround.
  apply dot_nonneg. intros j Hj _.
  assert (Hjn : (j < n)%nat) by lia.
  unfold vsub. rewrite (nth_map2 _ _ _ _ 0 0) by lia.
  destruct (Hround j Hjn) as (Hin & Hout).
  destruct (in_dec Nat.eq_dec j positions) as [Hd|Hd].
  - rewrite (Hin Hd). unfold round_at.
    destruct (Rgeb (nth j h 0) 0) eqn:E.
    + apply Rgeb_true in E.
      destruct (Rfloor_is_floor (nth j point 0)) as (z & -> & Hz). nra.
    + apply Rgeb_false in E.
      destruct (Rceil_is_ceil (nth j point 0)) as (z & -> & Hz). nra.
  - rewrite (Hout Hd). nra.
Qed.

(** X26: a descent step followed by the rounding.  The two model
    differences add up to the model difference between the start and
    the rounded point, neither is negative, and with integer-valued
    bounds on the integer coordinates the rounded point is inside the
    bounds. *)
Theorem candidate_then_integer (settings : RbfoptSettings) (n k : nat)
    (var_lower var_upper h start_point : vec) (tr_radius : R)
    (integer_vars : list Z) :
  length var_lower = n -> length var_upper = n ->
  length start_point = n -> length h = n ->
  norm h > 0 -> tr_radius >= 0 ->
  (forall i, (i < n)%nat ->
     nth i var_lower 0 <= nth i start_point 0 <= nth i var_upper 0) ->
  (forall i, In i integer_vars -> (- Z.of_nat n <= i < Z.of_nat n)%Z) ->
  (forall i, In i integer_vars ->
     exists zl zu : Z,
       nth (wrap n i) var_lower 0 = IZR zl /\
       nth (wrap n i) var_upper 0 = IZR zu) ->
  exists (candidate rounded : vec) (delta1 grad_norm delta2 : R),
    get_candidate_point settings n k var_lower var_upper h start_point
        tr_radius
      = Ok (candidate, delta1, grad_norm) /\
    get_integer_candidate settings n k h candidate integer_vars
      = Ok (rounded, delta2) /\
    dot h (vsub start_point rounded) = delta1 + delta2 /\
    delta1 >= 0 /\ delta2 >= 0 /\
    (forall j, (j < n)%nat ->
       nth j var_lower 0 <= nth j rounded 0 <= nth j var_upper 0).
Proof.
  intros Hl Hu Hs Hh Hn Hr Hbox Hidx Hint.
  destruct (max_step_is_minimum settings n var_lower var_upper h start_point
              tr_radius Hl Hu Hs Hh) as (HS & _).
  set (t := max_step settings var_lower var_upper h start_point tr_radius)
    in *.
  assert (Ht0 : 0 <= t).
  { now apply (step_bound_nonneg settings n var_lower var_upper h
                 start_point tr_radius t). }
  destruct (candidate_delta_nonneg n var_lower var_upper h start_point t
              Hl Hu Hs Hh Hbox Ht0) as (Hclen & Hcbox & Hd1).
  set (candidate := clip (vsub start_point (vscale t h)) var_lower var_upper)
    in *.
  destruct (get_integer_candidate_wraps settings n k h candidate integer_vars
              Hclen Hh Hidx) as (r & Er & Hrlen & Hround).
  exists candidate, r, (dot h (vsub start_point candidate)), (norm h),
    (dot h (vsub candidate r)).
  split; [now apply get_candidate_point_returns|].
  split; [exact Er|]. split; [|split; [lra|split]].
  - rewrite !dot_vsub_r by congruence. lra.
  - apply Rle_ge.
    now apply (rounding_delta_nonneg n h candidate r
                 (map (wrap n) integer_vars)).
  - intros j Hj. destruct (Hround j Hj) as (Hin & Hout).
    assert (Hb := Hcbox j Hj).
    destruct (in_dec Nat.eq_dec j (map (wrap n) integer_vars)) as [Hd|Hd].
    + rewrite (Hin Hd).
      apply in_map_iff in Hd. destruct Hd as (i & Ei & Hi).
      destruct (Hint i Hi) as (zl & zu & El & Eu).
      rewrite Ei in El, Eu. rewrite El, Eu in *.
      unfold round_at. destruct (Rgeb (nth j h 0) 0).
      * split; [apply Rfloor_ge_int; lra|].
        destruct (Rfloor_is_floor (nth j candidate 0)) as (z & -> & Hz). lra.
      * split; [|apply Rceil_le_int; lra].
        destruct (Rceil_is_ceil (nth j candidate 0)) as (z & -> & Hz). lra.
    + now rewrite (Hout Hd).
Qed.

Lemma valid_0 (i : Z) :
  In i [0]%Z -> (- Z.of_nat 2 <= i < Z.of_nat 2)%Z.
Proof. simpl. intros [<-|[]]. lia. Qed.

Lemma integral_bounds_0 (i : Z) :
  In i [0]%Z ->
  exists zl zu : Z,
    nth (wrap 2 i) [0; 0] 0 = IZR zl /\ nth (wrap 2 i) [10; 10] 0 = IZR zu.
Proof. simpl. intros [<-|[]]. now exists 0%Z, 10%Z. Qed.

Lemma candidate_then_integer_witness :
  exists (candidate rounded : vec) (delta1 grad_norm delta2 : R),
    get_candidate_point sample_settings 2 10 [0; 0] [10; 10] [3; 4] [5; 5] 1
      = Ok (candidate, delta1, grad_norm) /\
    get_integer_candidate sample_settings 2 10 [3; 4] candidate [0]%Z
      = Ok (rounded, delta2) /\
    dot [3; 4] (vsub [5; 5] rounded) = delta1 + delta2 /\
    delta1 >= 0 /\ delta2 >= 0 /\
    (forall j, (j < 2)%nat ->
       nth j [0; 0] 0 <= nth j rounded 0 <= nth j [10; 10] 0).
Proof.
  assert (Hn : norm [3; 4] > 0) by (rewrite norm_3_4; lra).
  assert (Hr : 1 >= 0) by lra.
  exact (candidate_then_integer sample_settings 2 10 [0; 0] [10; 10]
           [3; 4] [5; 5] 1 [0]%Z eq_refl eq_refl eq_refl eq_refl Hn Hr
           box_0_10 valid_0 integral_bounds_0).
Defined.

Lemma le_div_mult (t a g : R) : 0 < g -> t <= a / g -> t * g <= a.
Proof.
  intros Hg H. apply Rmult_le_compat_r with (r := g) in H; [|lra].
  replace (a / g * g) with a in H by (field; lra). exact H.
Qed.

(** X27: the clip is a safety net.  From a start at least [min_dist]
    inside every bound, the step length alone keeps the point inside
    the bounds: the candidate is the start moved by the step length [t]
    against the gradient, unclipped, at distance [t * ||h||], with
    model difference [t * ||h||^2]. *)
Theorem get_candidate_point_unclipped (settings : RbfoptSettings) (n k : nat)
    (var_lower var_upper h start_point : vec) (tr_radius : R) :
  length var_lower = n -> length var_upper = n ->
  length start_point = n -> length h = n ->
  norm h > 0 -> tr_radius >= 0 ->
  0 <= min_dist settings ->
  (forall i, (i < n)%nat ->
     nth i var_lower 0 + min_dist settings <= nth i start_point 0
       <= nth i var_upper 0 - min_dist settings) ->
  exists t : R,
    0 <= t <= tr_radius / norm h /\
    get_candidate_point settings n k var_lower var_upper h start_point
        tr_radius
      = Ok (step_from start_point h t, t * dot h h, norm h) /\
    euclidean start_point (step_from start_point h t) = t * norm h.
Proof.
  intros Hl Hu Hs Hh Hn Hr Hmd Hin.
  assert (Hbox : forall i, (i < n)%nat ->
            nth i var_lower 0 <= nth i start_point 0 <= nth i var_upper 0).
  { intros i Hi. assert (H := Hin i Hi). lra. }
  destruct (max_step_is_minimum settings n var_lower var_upper h start_point
              tr_radius Hl Hu Hs Hh) as (HS & Hmin).
  set (t := max_step settings var_lower var_upper h start_point tr_radius)
    in *.
  assert (Ht0 : 0 <= t).
  { now apply (step_bound_nonneg settings n var_lower var_upper h
                 start_point tr_radius t). }
  exists t. split; [split; [exact Ht0|apply Hmin, step_radius]|].
  assert (Ec : clip (vsub start_point (vscale t h)) var_lower var_upper
               = step_from start_point h t).
  { apply (nth_ext _ _ 0 0).
    - rewrite (length_clip _ _ _ n), (length_step_from _ _ _ n);
        try assumption; [reflexivity|now apply length_step_from].
    - intros i Hi.
      rewrite (length_clip _ _ _ n) in Hi; try assumption;
        [|now apply length_step_from].
      rewrite (nth_candidate n) by assumption.
      unfold step_from. rewrite nth_step by congruence.
      apply clip1_inside.
      assert (Hb := Hin i Hi).
      destruct (Rtotal_order (nth i h 0) 0) as [Hg|[Hg|Hg]].
      + assert (Hle : t <= (nth i start_point 0 - nth i var_upper 0)
                           / nth i h 0).
        { apply Hmin, step_upper; [lia|exact Hg|lra]. }
        replace ((nth i start_point 0 - nth i var_upper 0) / nth i h 0)
          with ((nth i var_upper 0 - nth i start_point 0) / (- nth i h 0))
          in Hle by (field; lra).
        apply le_div_mult in Hle; [|lra]. split; nra.
      + rewrite Hg. lra.
      + assert (Hle : t <= (nth i start_point 0 - nth i var_lower 0)
                           / nth i h 0).
        { apply Hmin, step_lower; [lia|lra|lra]. }
        apply le_div_mult in Hle; [|lra]. split; nra. }
  assert (Ew : vsub start_point (step_from start_point h t) = vscale t h).
  { unfold step_from. apply vsub_vsub. rewrite length_vscale. congruence. }
  split.
  - rewrite get_candidate_point_returns by assumption.
    fold t. rewrite Ec, Ew, dot_vscale_r. reflexivity.
  - unfold euclidean. rewrite Ew. now apply norm_vscale.
Qed.

Lemma box_min_dist (i : nat) :
  (i < 2)%nat ->
  nth i [0; 0] 0 + min_dist sample_settings <= nth i [5; 5] 0
    <= nth i [10; 10] 0 - min_dist sample_settings.
Proof.
  intros Hi. destruct i as [|[|i]]; simpl; try lra; lia.
Qed.

Lemma get_candidate_point_unclipped_witness :
  exists t : R,
    0 <= t <= 1 / norm [3; 4] /\
    get_candidate_point sample_settings 2 10 [0; 0] [10; 10] [3; 4] [5; 5] 1
      = Ok (step_from [5; 5] [3; 4] t, t * dot [3; 4] [3; 4], norm [3; 4]) /\
    euclidean [5; 5] (step_from [5; 5] [3; 4] t) = t * norm [3; 4].
Proof.
  assert (Hn : norm [3; 4] > 0) by (rewrite norm_3_4; lra).
  assert (Hr : 1 >= 0) by lra.
  assert (Hmd : 0 <= min_dist sample_settings) by (simpl; lra).
  exact (get_candidate_point_unclipped sample_settings 2 10 [0; 0] [10; 10]
           [3; 4] [5; 5] 1 eq_refl eq_refl eq_refl eq_refl Hn Hr Hmd
           box_min_dist).
Defined.

(** ** The objective functions of the auxiliary-problem tests *)

Lemma py_sum_fold (l : vec) (a : R) :
  fold_left Rplus l a = a + fold_right Rplus 0 l.
Proof.
  revert a. induction l as [|x l IH]; intros a; simpl; [lra|].
  rewrite IH. lra.
Qed.

Lemma py_sum_squares (point : vec) :
  TestAuxProblems.py_sum (map (fun val => val * val) point) = dot point point.
Proof.
  unfold TestAuxProblems.py_sum. rewrite py_sum_fold.
  induction point as [|x p IH]; [unfold dot; simpl; lra|].
  rewrite dot_cons. simpl. lra.
Qed.

(** X28: [quadratic] returns one value per point, the squared norm of
    the point: it is never negative and is zero at the origin only.
    [shifted_quadratic] is [quadratic] of the points moved by -1 in
    every coordinate, so its only zero is the all-ones point. *)
Theorem quadratic_values (points : list vec) :
  length (TestAuxProblems.quadratic points) = length points /\
  TestAuxProblems.quadratic points = map (fun p => dot p p) points /\
  TestAuxProblems.shifted_quadratic points
    = TestAuxProblems.quadratic (map (map (fun val => val - 1)) points) /\
  (forall i, (i < length points)%nat ->
     0 <= nth i (TestAuxProblems.quadratic points) 0 /\
     (nth i (TestAuxProblems.quadratic points) 0 = 0
        <-> Forall (fun val => val = 0) (nth i points [])) /\
     (nth i (TestAuxProblems.shifted_quadratic points) 0 = 0
        <-> Forall (fun val => val = 1) (nth i points []))).
Proof.
  assert (Eq : forall ps, TestAuxProblems.quadratic ps
                          = map (fun p => dot p p) ps).
  { intros ps. unfold TestAuxProblems.quadratic.
    apply map_ext. intros p. apply py_sum_squares. }
  assert (Es : TestAuxProblems.shifted_quadratic points
               = TestAuxProblems.quadratic
                   (map (map (fun val => val - 1)) points)).
  { unfold TestAuxProblems.shifted_quadratic, TestAuxProblems.quadratic.
    rewrite map_map. apply map_ext. intros p. now rewrite map_map. }
  split; [unfold TestAuxProblems.quadratic; apply length_map|].
  split; [apply Eq|]. split; [exact Es|].
  intros i Hi. rewrite Es, !Eq.
  rewrite (nth_map_in (fun p => dot p p) points i [] 0) by exact Hi.
  rewrite (nth_map_in (fun p => dot p p) _ i [] 0)
    by (now rewrite length_map).
  unfold vec in *.
  rewrite (nth_map_in (map (fun val => val - 1)) points i [] []) by exact Hi.
  split; [apply dot_nonneg; intros; nra|]. split.
  - apply dot_self_zero.
  - rewrite dot_self_zero, Forall_map.
    split; intros H; eapply Forall_impl; try exact H;
      simpl; intros; lra.
Qed.

Lemma quadratic_values_witness :
  nth 0 (TestAuxProblems.shifted_quadratic [[1; 1; 1]]) 0 = 0.
Proof.
  destruct (quadratic_values [[1; 1; 1]]) as (_ & _ & _ & H).
  assert (H0 : (0 < length [[1; 1; 1]])%nat) by (simpl; lia).
  destruct (H 0%nat H0) as (_ & _ & Hs).
  apply Hs. simpl. repeat constructor.
Defined.

(** X29: the candidate is inside the bounds whenever the bounds are
    consistent, also from a start outside them. *)
Theorem get_candidate_point_feasible (settings : RbfoptSettings) (n k : nat)
    (var_lower var_upper h start_point : vec) (tr_radius : R) :
  length var_lower = n -> length var_upper = n ->
  length start_point = n -> length h = n ->
  norm h > 0 -> tr_radius >= 0 ->
  (forall i, (i < n)%nat -> nth i var_lower 0 <= nth i var_upper 0) ->
  exists (candidate : vec) (model_delta grad_norm : R),
    get_candidate_point settings n k var_lower var_upper h start_point
        tr_radius
      = Ok (candidate, model_delta, grad_norm) /\
    length candidate = n /\
    forall i, (i < n)%nat ->
      nth i var_lower 0 <= nth i candidate 0 <= nth i var_upper 0.
Proof.
  intros Hl Hu Hs Hh Hn Hr Hcons.
  eexists; eexists; eexists. split.
  { now apply get_candidate_point_returns. }
  split.
  - apply length_clip; try assumption. now apply length_step_from.
  - intros i Hi. rewrite (nth_candidate n) by assumption.
    assert (Hc := Hcons i Hi).
    unfold clip1, Rmin, Rmax.
    destruct (Rle_dec _ (nth i var_lower 0));
      destruct (Rle_dec _ (nth i var_upper 0)); lra.
Qed.

Lemma consistent_0_10 (i : nat) :
  (i < 2)%nat -> nth i [0; 0] 0 <= nth i [10; 10] 0.
Proof.
  intros Hi. destruct i as [|[|i]]; simpl; try lra; lia.
Qed.

Lemma get_candidate_point_feasible_witness :
  exists (candidate : vec) (model_delta grad_norm : R),
    get_candidate_point sample_settings 2 10 [0; 0] [10; 10] [3; 4]
        [-5; 20] 1
      = Ok (candidate, model_delta, grad_norm) /\
    length candidate = 2%nat /\
    forall i, (i < 2)%nat ->
      nth i [0; 0] 0 <= nth i candidate 0 <= nth i [10; 10] 0.
Proof.
  assert (Hn : norm [3; 4] > 0) by (rewrite norm_3_4; lra).
  assert (Hr : 1 >= 0) by lra.
  exact (get_candidate_point_feasible sample_settings 2 10 [0; 0] [10; 10]
           [3; 4] [-5; 20] 1 eq_refl eq_refl eq_refl eq_refl Hn Hr
           consistent_0_10).
Defined.
